(** * cashplit-app: the authentication and session core

    A shallow embedding of [src/context/AuthContext.tsx] and
    [src/services/notifications.ts], with the parts of the JavaScript
    runtime they rely on ([JSON], promises, the secure store). *)

From Stdlib Require Import ZArith NArith Lia List Ascii String Bool.
From stdpp Require Import base option strings gmap list.

Set Default Proof Using "Type".
Local Open Scope N_scope.

(** ** JavaScript strings and values *)

(** A JavaScript string is a sequence of 16-bit code units. *)
Abbreviation jsstring := (list N).

(** A source literal (ASCII) as a JavaScript string. *)
Definition js (s : string) : jsstring :=
  map N_of_ascii (list_ascii_of_string s).

(** What [throw] and promise rejections carry. The code reads two things
    from an error: [error.code] and [error.response?.data?.message]. *)
Record JsError := mkError {
  err_name : string;
  err_code : option jsstring;
  err_response_message : option jsstring
}.

Definition SyntaxError : JsError := mkError "SyntaxError" None None.
Definition TypeError : JsError := mkError "TypeError" None None.

(** The values [JSON.parse] can produce, and [undefined]. A number is kept
    exactly, as [m * 10^e]. An object is its list of own properties. *)
#[warnings="-register-all"]
Inductive value : Type :=
| VUndefined
| VNull
| VBool (b : bool)
| VNum (m e : Z)
| VStr (s : jsstring)
| VArr (items : list value)
| VObj (fields : list (jsstring * value)).

(** ToBoolean. A number literal is falsy when it rounds to zero as a
    double, which is when its magnitude is at most [2^-1075]. *)
Definition truthy (v : value) : bool :=
  match v with
  | VUndefined | VNull => false
  | VBool b => b
  | VNum m e =>
      if (m =? 0)%Z then false
      else if (0 <=? e)%Z then true
      else (10 ^ (- e) <? Z.abs m * 2 ^ 1075)%Z
  | VStr s => match s with [] => false | _ => true end
  | VArr _ | VObj _ => true
  end.

Definition jsstring_eqb (a b : jsstring) : bool := bool_decide (a = b).

Fixpoint lookup_field (k : jsstring) (fields : list (jsstring * value)) : value :=
  match fields with
  | [] => VUndefined
  | (k', v) :: rest => if jsstring_eqb k k' then v else lookup_field k rest
  end.

(** [v.k] for the property names the program reads ([id], and nothing that
    a string, an array, a number or a boolean defines): a [TypeError] on
    [undefined] and [null], the own property of an object, [undefined]
    otherwise. *)
Definition member (v : value) (k : jsstring) : value + JsError :=
  match v with
  | VUndefined | VNull => inr TypeError
  | VObj fields => inl (lookup_field k fields)
  | _ => inl VUndefined
  end.

(** CreateDataProperty on a parsed object: a repeated key keeps its place
    and takes the later value. *)
Fixpoint set_field (k : jsstring) (v : value) (fields : list (jsstring * value))
  : list (jsstring * value) :=
  match fields with
  | [] => [(k, v)]
  | (k', v') :: rest =>
      if jsstring_eqb k k' then (k', v) :: rest else (k', v') :: set_field k v rest
  end.

(** ** JSON *)

Module JSON.

Definition is_lead (c : N) : bool := (55296 <=? c) && (c <=? 56319).
Definition is_trail (c : N) : bool := (56320 <=? c) && (c <=? 57343).

Definition hexdigit (n : N) : N := if n <? 10 then 48 + n else 87 + n.

(** [\uXXXX], lower-case hexadecimal. *)
Definition UnicodeEscape (c : N) : jsstring :=
  [92; 117; hexdigit (c / 4096 mod 16); hexdigit (c / 256 mod 16);
   hexdigit (c / 16 mod 16); hexdigit (c mod 16)].

(** One code unit that is not the lead of a surrogate pair. *)
Definition quote_unit (c : N) : jsstring :=
  if c =? 8 then [92; 98]
  else if c =? 9 then [92; 116]
  else if c =? 10 then [92; 110]
  else if c =? 12 then [92; 102]
  else if c =? 13 then [92; 114]
  else if c =? 34 then [92; 34]
  else if c =? 92 then [92; 92]
  else if (c <? 32) || is_lead c || is_trail c then UnicodeEscape c
  else [c].

(** QuoteJSONString without the enclosing quotes: a surrogate pair is
    copied, a lone surrogate is escaped. *)
Fixpoint quote_body (s : jsstring) : jsstring :=
  match s with
  | [] => []
  | c :: rest =>
      if is_lead c then
        match rest with
        | d :: rest' =>
            if is_trail d then c :: d :: quote_body rest'
            else UnicodeEscape c ++ quote_body rest
        | [] => UnicodeEscape c
        end
      else quote_unit c ++ quote_body rest
  end.

Definition QuoteJSONString (s : jsstring) : jsstring :=
  34 :: quote_body s ++ [34].

(** *** JSON.parse *)

Definition is_ws (c : N) : bool :=
  (c =? 32) || (c =? 9) || (c =? 10) || (c =? 13).

Fixpoint skip_ws (s : jsstring) : jsstring :=
  match s with
  | c :: rest => if is_ws c then skip_ws rest else s
  | [] => []
  end.

Definition hexval (c : N) : option N :=
  if (48 <=? c) && (c <=? 57) then Some (c - 48)
  else if (97 <=? c) && (c <=? 102) then Some (c - 87)
  else if (65 <=? c) && (c <=? 70) then Some (c - 55)
  else None.

Definition hex4 (a b c d : N) : option N :=
  match hexval a, hexval b, hexval c, hexval d with
  | Some a, Some b, Some c, Some d => Some (a * 4096 + b * 256 + c * 16 + d)
  | _, _, _, _ => None
  end.

Definition simple_escape (c : N) : option N :=
  if c =? 34 then Some 34
  else if c =? 92 then Some 92
  else if c =? 47 then Some 47
  else if c =? 98 then Some 8
  else if c =? 102 then Some 12
  else if c =? 110 then Some 10
  else if c =? 114 then Some 13
  else if c =? 116 then Some 9
  else None.

(** The characters of a string literal after its opening quote, up to and
    including the closing quote. *)
Fixpoint parse_chars (s : jsstring) : option (jsstring * jsstring) :=
  match s with
  | [] => None
  | c :: rest =>
      if c =? 34 then Some ([], rest)
      else if c =? 92 then
        match rest with
        | [] => None
        | e :: rest1 =>
            if e =? 117 then
              match rest1 with
              | h1 :: h2 :: h3 :: h4 :: rest2 =>
                  match hex4 h1 h2 h3 h4 with
                  | Some u =>
                      match parse_chars rest2 with
                      | Some (str, out) => Some (u :: str, out)
                      | None => None
                      end
                  | None => None
                  end
              | _ => None
              end
            else
              match simple_escape e with
              | Some u =>
                  match parse_chars rest1 with
                  | Some (str, out) => Some (u :: str, out)
                  | None => None
                  end
              | None => None
              end
        end
      else if c <? 32 then None
      else
        match parse_chars rest with
        | Some (str, out) => Some (c :: str, out)
        | None => None
        end
  end.

Definition is_digit (c : N) : bool := (48 <=? c) && (c <=? 57).

(** The longest run of decimal digits, as digit values. *)
Fixpoint take_digits (s : jsstring) : list N * jsstring :=
  match s with
  | c :: rest =>
      if is_digit c then let '(ds, out) := take_digits rest in ((c - 48) :: ds, out)
      else ([], s)
  | [] => ([], [])
  end.

Definition digits_value (ds : list N) : Z :=
  fold_left (fun acc d => (acc * 10 + Z.of_N d)%Z) ds 0%Z.

Definition parse_int (s : jsstring) : option (list N * jsstring) :=
  match s with
  | c :: rest =>
      if c =? 48 then Some ([0], rest)
      else if is_digit c then Some (take_digits s)
      else None
  | [] => None
  end.

Definition parse_frac (s : jsstring) : option (list N * jsstring) :=
  match s with
  | 46 :: rest =>
      match take_digits rest with
      | ([], _) => None
      | (ds, out) => Some (ds, out)
      end
  | _ => Some ([], s)
  end.

Definition parse_exp (s : jsstring) : option (Z * jsstring) :=
  let digits (neg : bool) (rest : jsstring) :=
    match take_digits rest with
    | ([], _) => None
    | (ds, out) => Some (if neg then (- digits_value ds)%Z else digits_value ds, out)
    end in
  match s with
  | c :: rest =>
      if (c =? 101) || (c =? 69) then
        match rest with
        | 43 :: rest' => digits false rest'
        | 45 :: rest' => digits true rest'
        | _ => digits false rest
        end
      else Some (0%Z, s)
  | [] => Some (0%Z, s)
  end.

Definition parse_number (s : jsstring) : option (value * jsstring) :=
  let '(neg, s1) := match s with 45 :: rest => (true, rest) | _ => (false, s) end in
  match parse_int s1 with
  | None => None
  | Some (ip, s2) =>
      match parse_frac s2 with
      | None => None
      | Some (fp, s3) =>
          match parse_exp s3 with
          | None => None
          | Some (ex, s4) =>
              let m := digits_value (ip ++ fp) in
              Some (VNum (if neg then (- m)%Z else m) (ex - Z.of_nat (length fp))%Z, s4)
          end
      end
  end.

(** [s] starts with the literal [lit]: what follows it. *)
Fixpoint strip_prefix (lit s : jsstring) : option jsstring :=
  match lit, s with
  | [], _ => Some s
  | a :: lit', b :: s' => if a =? b then strip_prefix lit' s' else None
  | _ :: _, [] => None
  end.

(** One value, with no white space before it. The fuel bounds the nesting;
    [JSON.parse] below gives enough for any text. *)
Fixpoint parse_value (fuel : nat) (s : jsstring) : option (value * jsstring) :=
  match fuel with
  | O => None
  | S fuel =>
      match s with
      | [] => None
      | c :: rest =>
          if c =? 34 then
            match parse_chars rest with
            | Some (str, out) => Some (VStr str, out)
            | None => None
            end
          else if c =? 91 then
            match skip_ws rest with
            | 93 :: out => Some (VArr [], out)
            | rest' =>
                match parse_elements fuel rest' with
                | Some (vs, out) => Some (VArr vs, out)
                | None => None
                end
            end
          else if c =? 123 then
            match skip_ws rest with
            | 125 :: out => Some (VObj [], out)
            | rest' =>
                match parse_members fuel [] rest' with
                | Some (fs, out) => Some (VObj fs, out)
                | None => None
                end
            end
          else if c =? 116 then
            match strip_prefix (js "true") s with
            | Some out => Some (VBool true, out)
            | None => None
            end
          else if c =? 102 then
            match strip_prefix (js "false") s with
            | Some out => Some (VBool false, out)
            | None => None
            end
          else if c =? 110 then
            match strip_prefix (js "null") s with
            | Some out => Some (VNull, out)
            | None => None
            end
          else parse_number s
      end
  end

(** The elements of a non-empty array, up to and including [ ] ]. *)
with parse_elements (fuel : nat) (s : jsstring) : option (list value * jsstring) :=
  match fuel with
  | O => None
  | S fuel =>
      match parse_value fuel (skip_ws s) with
      | None => None
      | Some (v, rest) =>
          match skip_ws rest with
          | 44 :: rest' =>
              match parse_elements fuel rest' with
              | Some (vs, out) => Some (v :: vs, out)
              | None => None
              end
          | 93 :: out => Some ([v], out)
          | _ => None
          end
      end
  end

(** The members of a non-empty object, up to and including the closing
    brace; [acc] holds the properties defined so far. *)
with parse_members (fuel : nat) (acc : list (jsstring * value)) (s : jsstring)
  : option (list (jsstring * value) * jsstring) :=
  match fuel with
  | O => None
  | S fuel =>
      match skip_ws s with
      | 34 :: rest =>
          match parse_chars rest with
          | None => None
          | Some (key, rest1) =>
              match skip_ws rest1 with
              | 58 :: rest2 =>
                  match parse_value fuel (skip_ws rest2) with
                  | None => None
                  | Some (v, rest3) =>
                      let acc' := set_field key v acc in
                      match skip_ws rest3 with
                      | 44 :: rest4 => parse_members fuel acc' rest4
                      | 125 :: out => Some (acc', out)
                      | _ => None
                      end
                  end
              | _ => None
              end
          end
      | _ => None
      end
  end.

(** [JSON.parse(text)]: the value, or a thrown [SyntaxError]. *)
Definition parse (text : jsstring) : value + JsError :=
  match parse_value (2 * length text + 2) (skip_ws text) with
  | Some (v, rest) =>
      match skip_ws rest with
      | [] => inl v
      | _ => inr SyntaxError
      end
  | None => inr SyntaxError
  end.

(** A parsed string with one more character in front. *)
Definition cons_result (c : N) (r : option (jsstring * jsstring))
  : option (jsstring * jsstring) :=
  match r with
  | Some (str, out) => Some (c :: str, out)
  | None => None
  end.

End JSON.

(** ** Data of the session core *)

(** [interface User]. *)
Module User.
Record t := mk {
  id : jsstring;
  name : jsstring;
  email : jsstring
}.
End User.
Abbreviation User := User.t.

(** The object literal [{ id, name, email }] as a value. *)
Definition User_value (u : User) : value :=
  VObj [(js "id", VStr (User.id u)); (js "name", VStr (User.name u));
        (js "email", VStr (User.email u))].

(** [JSON.stringify] of the object literal [{ id, name, email }], three
    strings: the properties in that order, no white space. *)
Definition JSON_stringify (u : User) : jsstring :=
  js "{" ++ JSON.QuoteJSONString (js "id") ++ js ":" ++ JSON.QuoteJSONString (User.id u)
  ++ js "," ++ JSON.QuoteJSONString (js "name") ++ js ":" ++ JSON.QuoteJSONString (User.name u)
  ++ js "," ++ JSON.QuoteJSONString (js "email") ++ js ":" ++ JSON.QuoteJSONString (User.email u)
  ++ js "}".

(** [interface SignUpData]. *)
Module SignUpData.
Record t := mk {
  name : jsstring;
  email : jsstring;
  password : jsstring;
  phone : jsstring;
  upiId : jsstring
}.
End SignUpData.
Abbreviation SignUpData := SignUpData.t.

(** [{ success: boolean; error?: string }]. *)
Record AuthResult := mkResult {
  success : bool;
  error : option jsstring
}.

(** [USER_KEY]. *)
Definition USER_KEY : string := "cashplit_user".

(** A truthy string: present and not empty. *)
Definition truthy_str (o : option jsstring) : bool :=
  match o with
  | Some (_ :: _) => true
  | _ => false
  end.

(** [a || b] where [b] is a string literal. *)
Definition or_else (a : option jsstring) (b : jsstring) : jsstring :=
  match a with
  | Some (c :: s) => c :: s
  | _ => b
  end.

(** Modelled from the spec: the request bodies and response shapes of the
    remote endpoints ([services/api], which the context imports, is not
    among the sources). A response carries [data?.user] (sign-in, Google
    exchange) or [data?.userId] (sign-up). *)
Inductive Body :=
| SignInBody (email password : jsstring)
| GoogleBody (idToken : jsstring)
| SignUpBody (data : SignUpData)
| ForgotPasswordBody (email : jsstring).

Record ResponseData := mkData {
  data_user : option User;
  data_userId : option jsstring
}.

Record Response := mkResponse { resp_data : option ResponseData }.

(** What [GoogleSignin.signIn()] resolves with; the code reads
    [userInfo.data?.idToken]. *)
Record GoogleData := mkGoogleData { idToken : option jsstring }.
Record UserInfo := mkUserInfo { info_data : option GoogleData }.

(** [statusCodes] of the Google sign-in library. *)
Record StatusCodes := mkStatusCodes {
  SIGN_IN_CANCELLED : jsstring;
  IN_PROGRESS : jsstring;
  PLAY_SERVICES_NOT_AVAILABLE : jsstring
}.

Inductive PermissionStatus := granted | denied | undetermined.

Definition is_granted (s : PermissionStatus) : bool :=
  match s with granted => true | _ => false end.

(** The constants of the process that the code reads from imported
    modules. *)
Record Runtime := mkRuntime {
  statusCodes : StatusCodes;
  Platform_OS : string;
  Device_isDevice : bool;
  expoConfig_projectId : option jsstring;
  easConfig_projectId : option jsstring
}.

(** ** Asynchronous programs *)

(** The calls that return a promise. Each is a suspension point; how it
    settles is decided outside the program. *)
Inductive Call : Type -> Type :=
| SecureStore_getItemAsync (key : string) : Call (option jsstring)
| SecureStore_setItemAsync (key : string) (v : jsstring) : Call unit
| SecureStore_deleteItemAsync (key : string) : Call unit
| api_post (url : string) (body : Body) : Call Response
| api_updatePushToken (token : jsstring) : Call unit
| GoogleSignin_hasPlayServices : Call unit
| GoogleSignin_signIn : Call UserInfo
| Notifications_setNotificationChannelAsync (channel : string) : Call unit
| Notifications_getPermissionsAsync : Call PermissionStatus
| Notifications_requestPermissionsAsync : Call PermissionStatus
| Notifications_getExpoPushTokenAsync (projectId : jsstring) : Call jsstring.

(** The synchronous effects. *)
Inductive Action :=
| api_setUserId (uid : value)
| setUser (u : value)
| setIsLoading (b : bool)
| console_error (label : string) (e : JsError)
| console_log (label : string)
| setError (msg : jsstring)
| setLoading (b : bool)
| setSuccess (b : bool).

(** An async function body: it returns, throws, performs a synchronous
    effect, or awaits a call and goes on with how the call settled. *)
Inductive Async (A : Type) : Type :=
| Ret (a : A)
| Throw (e : JsError)
| Do (act : Action) (k : Async A)
| Await {X : Type} (c : Call X) (k : X + JsError -> Async A).

Arguments Ret {A} a.
Arguments Throw {A} e.
Arguments Do {A} act k.
Arguments Await {A X} c k.

Fixpoint bind {A B : Type} (p : Async A) (f : A -> Async B) : Async B :=
  match p with
  | Ret a => f a
  | Throw e => Throw e
  | Do act k => Do act (bind k f)
  | Await c k => Await c (fun r => bind (k r) f)
  end.

(** [await c]: the value the call resolves with; a rejection is thrown. *)
Definition await {X : Type} (c : Call X) : Async X :=
  Await c (fun r => match r with inl x => Ret x | inr e => Throw e end).

Definition perform (act : Action) : Async unit := Do act (Ret tt).

(** [try { p } catch (error) { h error }]. *)
Fixpoint try_catch {A : Type} (p : Async A) (h : JsError -> Async A) : Async A :=
  match p with
  | Ret a => Ret a
  | Throw e => h e
  | Do act k => Do act (try_catch k h)
  | Await c k => Await c (fun r => try_catch (k r) h)
  end.

(** [try { p } finally { fin }]. *)
Fixpoint try_finally {A : Type} (p : Async A) (fin : Async unit) : Async A :=
  match p with
  | Ret a => bind fin (fun _ => Ret a)
  | Throw e => bind fin (fun _ => Throw e)
  | Do act k => Do act (try_finally k fin)
  | Await c k => Await c (fun r => try_finally (k r) fin)
  end.

Declare Scope async_scope.
Delimit Scope async_scope with async.
Bind Scope async_scope with Async.
Notation "x <- p ;; q" := (bind p (fun x => q))
  (at level 100, p at next level, right associativity) : async_scope.
Notation "p ;; q" := (bind p (fun _ => q))
  (at level 100, right associativity) : async_scope.
Local Open Scope async_scope.

Definition lift {A : Type} (r : A + JsError) : Async A :=
  match r with
  | inl a => Ret a
  | inr e => Throw e
  end.

(** ** src/context/AuthContext.tsx *)

Definition loadStoredUser : Async unit :=
  try_finally
    (try_catch
       (storedUser <- await (SecureStore_getItemAsync USER_KEY) ;;
        match storedUser with
        | Some (c :: text) =>
            userData <- lift (JSON.parse (c :: text)) ;;
            perform (setUser userData) ;;
            uid <- lift (member userData (js "id")) ;;
            perform (api_setUserId uid)
        | _ => Ret tt
        end)
       (fun error => perform (console_error "Error loading user:" error)))
    (perform (setIsLoading false)).

Definition signIn (email password : jsstring) : Async AuthResult :=
  try_catch
    (response <- await (api_post "/api/auth/signin" (SignInBody email password)) ;;
     match resp_data response ≫= data_user with
     | Some user =>
         let userData := User.mk (User.id user) (User.name user) (User.email user) in
         await (SecureStore_setItemAsync USER_KEY (JSON_stringify userData)) ;;
         perform (api_setUserId (VStr (User.id userData))) ;;
         perform (setUser (User_value userData)) ;;
         Ret (mkResult true None)
     | None => Ret (mkResult false (Some (js "Invalid credentials")))
     end)
    (fun error =>
       perform (console_error "Sign in error:" error) ;;
       Ret (mkResult false
              (Some (or_else (err_response_message error) (js "Sign in failed"))))).

Definition signUp (data : SignUpData) : Async AuthResult :=
  try_catch
    (response <- await (api_post "/api/auth/signup" (SignUpBody data)) ;;
     match resp_data response ≫= data_userId with
     | Some (c :: userId) =>
         let userData := User.mk (c :: userId) (SignUpData.name data) (SignUpData.email data) in
         await (SecureStore_setItemAsync USER_KEY (JSON_stringify userData)) ;;
         perform (api_setUserId (VStr (User.id userData))) ;;
         perform (setUser (User_value userData)) ;;
         Ret (mkResult true None)
     | _ => Ret (mkResult false (Some (js "Registration failed")))
     end)
    (fun error =>
       perform (console_error "Sign up error:" error) ;;
       Ret (mkResult false
              (Some (or_else (err_response_message error) (js "Sign up failed"))))).

Definition forgotPassword (email : jsstring) : Async AuthResult :=
  try_catch
    (response <- await (api_post "/api/auth/forgot-password" (ForgotPasswordBody email)) ;;
     Ret (mkResult true None))
    (fun error =>
       perform (console_error "Forgot password error:" error) ;;
       Ret (mkResult false
              (Some (or_else (err_response_message error) (js "Failed to send reset email"))))).

Definition signOut : Async unit :=
  try_catch
    (await (SecureStore_deleteItemAsync USER_KEY) ;;
     perform (api_setUserId VNull) ;;
     perform (setUser VNull))
    (fun error => perform (console_error "Sign out error:" error)).

Section WithRuntime.

Variable rt : Runtime.

(** [error.code === c]. *)
Definition code_is (error : JsError) (c : jsstring) : bool :=
  bool_decide (err_code error = Some c).

Definition signInWithGoogle : Async AuthResult :=
  try_catch
    (await GoogleSignin_hasPlayServices ;;
     userInfo <- await GoogleSignin_signIn ;;
     match info_data userInfo ≫= idToken with
     | Some (c :: tok) =>
         response <- await (api_post "/api/auth/google" (GoogleBody (c :: tok))) ;;
         match resp_data response ≫= data_user with
         | Some user =>
             let userData := User.mk (User.id user) (User.name user) (User.email user) in
             await (SecureStore_setItemAsync USER_KEY (JSON_stringify userData)) ;;
             perform (api_setUserId (VStr (User.id userData))) ;;
             perform (setUser (User_value userData)) ;;
             Ret (mkResult true None)
         | None => Ret (mkResult false (Some (js "Google sign-in failed on server")))
         end
     | _ => Ret (mkResult false (Some (js "Failed to get ID token")))
     end)
    (fun error =>
       perform (console_error "Google sign-in error:" error) ;;
       if code_is error (SIGN_IN_CANCELLED (statusCodes rt)) then
         Ret (mkResult false (Some (js "Sign in cancelled")))
       else if code_is error (IN_PROGRESS (statusCodes rt)) then
         Ret (mkResult false (Some (js "Sign in in progress")))
       else if code_is error (PLAY_SERVICES_NOT_AVAILABLE (statusCodes rt)) then
         Ret (mkResult false (Some (js "Play services not available")))
       else
         Ret (mkResult false
                (Some (or_else (err_response_message error) (js "Google sign-in failed"))))).

(** ** src/services/notifications.ts *)

(** [a ?? b]. *)
Definition nullish_or (a b : option jsstring) : option jsstring :=
  match a with
  | Some x => Some x
  | None => b
  end.

(** Resolves with the token, or with [undefined]. *)
Definition registerForPushNotificationsAsync : Async (option jsstring) :=
  (if bool_decide (Platform_OS rt = "android")
   then await (Notifications_setNotificationChannelAsync "default")
   else Ret tt) ;;
  if Device_isDevice rt then
    existingStatus <- await Notifications_getPermissionsAsync ;;
    finalStatus <- (if negb (is_granted existingStatus)
                    then await Notifications_requestPermissionsAsync
                    else Ret existingStatus) ;;
    if negb (is_granted finalStatus) then
      perform (console_log "Failed to get push token for push notification!") ;;
      Ret None
    else
      match nullish_or (expoConfig_projectId rt) (easConfig_projectId rt) with
      | Some (c :: projectId) =>
          try_catch
            (token <- await (Notifications_getExpoPushTokenAsync (c :: projectId)) ;;
             perform (console_log "Expo Push Token:") ;;
             Ret (Some token))
            (fun e => perform (console_log "Error getting push token:") ;; Ret None)
      | _ => perform (console_log "Project ID not found") ;; Ret None
      end
  else
    perform (console_log "Must use physical device for Push Notifications") ;;
    Ret None.

(** The effect on [[user]] of [AuthProvider], run with the [user] of the
    render that scheduled it. *)
Definition pushTokenEffect (user : value) : Async unit :=
  if truthy user then
    token <- registerForPushNotificationsAsync ;;
    match token with
    | Some (c :: tok) =>
        try_catch
          (await (api_updatePushToken (c :: tok)))
          (fun err => perform (console_error "Failed to update push token on server:" err))
    | _ => Ret tt
    end
  else Ret tt.

End WithRuntime.

(** ** src/app/(auth)/forgot-password.tsx *)

(** [handleResetPassword], with the screen's [email] state. *)
Definition handleResetPassword (email : jsstring) : Async unit :=
  match email with
  | [] => perform (setError (js "Please enter your email address"))
  | _ =>
      perform (setLoading true) ;;
      perform (setError []) ;;
      result <- forgotPassword email ;;
      (if success result then perform (setSuccess true)
       else perform (setError (or_else (error result) (js "Failed to send reset link")))) ;;
      perform (setLoading false)
  end.

(** ** src/app/(tabs)/_layout.tsx *)

(** What [TabLayout] renders. *)
Inductive Rendered :=
| Nothing
| RedirectToSignIn
| TheTabs.

(** [TabLayout], from the [user] and [isLoading] of [useAuth()]. *)
Definition TabLayout (user : value) (isLoading : bool) : Rendered :=
  if isLoading then Nothing
  else if negb (truthy user) then RedirectToSignIn
  else TheTabs.

(** ** The group screens: src/unnamed/part_001 (GroupDetailsScreen) and
    src/app/(tabs)/group/settings.tsx (CreateGroupScreen) *)

(** [interface Member]. *)
Module Member.
Record t := mk {
  _id : jsstring;
  name : jsstring;
  email : jsstring;
  phone : option jsstring;
  upiId : option jsstring
}.
End Member.
Abbreviation Member := Member.t.

(** [s.startsWith(q)]. *)
Fixpoint startsWith (s q : jsstring) : bool :=
  match q, s with
  | [], _ => true
  | _ :: _, [] => false
  | a :: q', b :: s' => (a =? b) && startsWith s' q'
  end.

(** [s.includes(q)]: [q] occurs in [s]. *)
Fixpoint includes (s q : jsstring) : bool :=
  startsWith s q ||
  match s with
  | [] => false
  | _ :: s' => includes s' q
  end.

(** [user?.id]. *)
Definition optional_id (user : value) : value :=
  match member user (js "id") with
  | inl v => v
  | inr _ => VUndefined
  end.

(** [a === v] for a string [a]. *)
Definition string_is (a : jsstring) (v : value) : bool :=
  match v with
  | VStr b => jsstring_eqb a b
  | _ => false
  end.

(** The search test both screens apply to a suggestion:
    [(s.name && s.name.toLowerCase().includes(query)) ||
     (s.email && s.email.toLowerCase().includes(query)) ||
     (s.phone && s.phone.includes(query))].
    [toLowerCase] is [String.prototype.toLowerCase], of the runtime. *)
Definition matches_query (toLowerCase : jsstring -> jsstring) (s : Member)
    (query : jsstring) : bool :=
  match Member.name s with
  | [] => false
  | name => includes (toLowerCase name) query
  end
  || match Member.email s with
     | [] => false
     | email => includes (toLowerCase email) query
     end
  || match Member.phone s with
     | Some (c :: phone) => includes (c :: phone) query
     | _ => false
     end.

Module CreateGroupScreen.

(** [toggleMember]: the new [selectedMembers]. *)
Definition toggleMember (selectedMembers : list Member) (member : Member) : list Member :=
  if existsb (fun m => jsstring_eqb (Member._id m) (Member._id member)) selectedMembers
  then List.filter (fun m => negb (jsstring_eqb (Member._id m) (Member._id member)))
                   selectedMembers
  else selectedMembers ++ [member].

Definition filteredSuggestions (toLowerCase : jsstring -> jsstring)
    (suggestions selectedMembers : list Member) (searchQuery : jsstring) : list Member :=
  List.filter
    (fun s =>
       let isSelected :=
         existsb (fun m => jsstring_eqb (Member._id m) (Member._id s)) selectedMembers in
       if isSelected then false
       else if (length searchQuery =? 0)%nat then true
       else
         let query := toLowerCase searchQuery in
         matches_query toLowerCase s query)
    suggestions.

End CreateGroupScreen.

Module GroupDetailsScreen.

(** [interface Group], the field read here. *)
Record Group := mkGroup { members : list Member }.

(** [toggleInvite]: the new [selectedInvites]. *)
Definition toggleInvite (selectedInvites : list Member) (member : Member) : list Member :=
  if existsb (fun s => jsstring_eqb (Member._id s) (Member._id member)) selectedInvites
  then List.filter (fun s => negb (jsstring_eqb (Member._id s) (Member._id member)))
                   selectedInvites
  else selectedInvites ++ [member].

Definition filteredSuggestions (toLowerCase : jsstring -> jsstring)
    (suggestions : list Member) (group : option Group) (searchQuery : jsstring)
  : list Member :=
  List.filter
    (fun s =>
       match group with
       | None => false
       | Some group =>
           match Member.email s with
           | [] => false
           | _ =>
               let isAlreadyMember :=
                 existsb (fun m => jsstring_eqb (Member.email m) (Member.email s))
                         (members group) in
               let filtered := negb isAlreadyMember in
               if (length searchQuery =? 0)%nat then filtered
               else
                 let query := toLowerCase searchQuery in
                 matches_query toLowerCase s query
           end
       end)
    suggestions.

(** A row of [balances] as the server sends it, with the two fields read
    here; the amount is carried along untouched. *)
Record Balance (Amount : Type) := mkBalance {
  b_user : jsstring;
  b_balance : Amount
}.
Arguments mkBalance {Amount} _ _.
Arguments b_user {Amount} _.
Arguments b_balance {Amount} _.

(** [{ ...b, name, _id }]. *)
Record Enriched (Amount : Type) := mkEnriched {
  e_user : jsstring;
  e_balance : Amount;
  e_name : jsstring;
  e_id : jsstring
}.
Arguments mkEnriched {Amount} _ _ _ _.
Arguments e_user {Amount} _.
Arguments e_balance {Amount} _.
Arguments e_name {Amount} _.
Arguments e_id {Amount} _.

Definition enrichedBalances {Amount : Type} (balances : list (Balance Amount))
    (group : Group) : list (Enriched Amount) :=
  map (fun b =>
         let member :=
           find (fun m => jsstring_eqb (Member._id m) (b_user b)) (members group) in
         mkEnriched (b_user b) (b_balance b)
                    match member with Some m => Member.name m | None => js "Unknown" end
                    match member with Some m => Member._id m | None => b_user b end)
      balances.

(** [enrichedBalances.find((b) => b._id === user?.id)]. *)
Definition userBalance {Amount : Type} (enriched : list (Enriched Amount)) (user : value)
  : option (Enriched Amount) :=
  find (fun b => string_is (e_id b) (optional_id user)) enriched.

End GroupDetailsScreen.

(** ** The world the programs run in *)

(** The state of the forgot-password screen. *)
Record ScreenState := mkScreen {
  screen_error : jsstring;
  screen_loading : bool;
  screen_success : bool
}.

(** [user] and [isLoading] are the provider's React state; [secureStore] is
    the device's secure store, which outlives the process; [apiUserId],
    [requests] and [pushUploads] are the state of [services/api] (below);
    [tokenRequests] lists the project ids for which a push token has been
    asked of the notification service; [effectQueue] holds the committed
    [user] values whose effect React has not run yet. *)
Record World := mkWorld {
  user : value;
  isLoading : bool;
  secureStore : gmap string jsstring;
  apiUserId : value;
  requests : list (string * Body);
  pushUploads : list (jsstring * value);
  tokenRequests : list jsstring;
  console : list (string * option JsError);
  effectQueue : list value;
  screen : ScreenState
}.

(** Modelled from the spec: [api.setUserId(id)] of [services/api], which is
    not among the sources. It binds [id] (or [null]) for the requests that
    follow. *)
Definition api_bind (uid : value) (w : World) : World :=
  mkWorld (user w) (isLoading w) (secureStore w) uid (requests w)
          (pushUploads w) (tokenRequests w) (console w) (effectQueue w) (screen w).

(** Modelled from the spec: [api.post(url, body)] of [services/api], which
    is not among the sources. It issues the request; [requests] lists the
    requests issued, oldest first. *)
Definition api_issue (url : string) (body : Body) (w : World) : World :=
  mkWorld (user w) (isLoading w) (secureStore w) (apiUserId w)
          (requests w ++ [(url, body)])
          (pushUploads w) (tokenRequests w) (console w) (effectQueue w) (screen w).

(** Modelled from the spec: [api.updatePushToken(token)] of [services/api],
    which is not among the sources. It uploads the token for the id bound
    when it is called. *)
Definition api_upload (token : jsstring) (w : World) : World :=
  mkWorld (user w) (isLoading w) (secureStore w) (apiUserId w) (requests w)
          (pushUploads w ++ [(token, apiUserId w)]) (tokenRequests w)
          (console w) (effectQueue w) (screen w).

(** A synchronous effect. [setUser] commits a new [user]; React then owes
    one run of the effect that depends on [[user]]. *)
Definition apply_action (act : Action) (w : World) : World :=
  match act with
  | api_setUserId uid => api_bind uid w
  | setUser u =>
      mkWorld u (isLoading w) (secureStore w) (apiUserId w) (requests w)
              (pushUploads w) (tokenRequests w) (console w) (effectQueue w ++ [u]) (screen w)
  | setIsLoading b =>
      mkWorld (user w) b (secureStore w) (apiUserId w) (requests w)
              (pushUploads w) (tokenRequests w) (console w) (effectQueue w) (screen w)
  | console_error label e =>
      mkWorld (user w) (isLoading w) (secureStore w) (apiUserId w) (requests w)
              (pushUploads w) (tokenRequests w) (console w ++ [(label, Some e)])
              (effectQueue w) (screen w)
  | console_log label =>
      mkWorld (user w) (isLoading w) (secureStore w) (apiUserId w) (requests w)
              (pushUploads w) (tokenRequests w) (console w ++ [(label, None)])
              (effectQueue w) (screen w)
  | setError msg =>
      mkWorld (user w) (isLoading w) (secureStore w) (apiUserId w) (requests w)
              (pushUploads w) (tokenRequests w) (console w) (effectQueue w)
              (mkScreen msg (screen_loading (screen w)) (screen_success (screen w)))
  | setLoading b =>
      mkWorld (user w) (isLoading w) (secureStore w) (apiUserId w) (requests w)
              (pushUploads w) (tokenRequests w) (console w) (effectQueue w)
              (mkScreen (screen_error (screen w)) b (screen_success (screen w)))
  | setSuccess b =>
      mkWorld (user w) (isLoading w) (secureStore w) (apiUserId w) (requests w)
              (pushUploads w) (tokenRequests w) (console w) (effectQueue w)
              (mkScreen (screen_error (screen w)) (screen_loading (screen w)) b)
  end.

Definition with_store (m : gmap string jsstring) (w : World) : World :=
  mkWorld (user w) (isLoading w) m (apiUserId w) (requests w)
          (pushUploads w) (tokenRequests w) (console w) (effectQueue w) (screen w).

(** What making a call does at once, before the promise settles. *)
Definition initiate {X : Type} (c : Call X) (w : World) : World :=
  match c with
  | api_post url body => api_issue url body w
  | api_updatePushToken token => api_upload token w
  | Notifications_getExpoPushTokenAsync projectId =>
      mkWorld (user w) (isLoading w) (secureStore w) (apiUserId w) (requests w)
              (pushUploads w) (tokenRequests w ++ [projectId])
              (console w) (effectQueue w) (screen w)
  | _ => w
  end.

(** How the outside settles each call: resolved with a value or rejected
    with an error. For the secure store only the choice between the two is
    the outside's. *)
Definition Env := forall X : Type, Call X -> X + JsError.

(** The settling of a call. A store operation that resolves has taken
    effect; one that rejects has left the store as it was. *)
Definition complete {X : Type} (env : Env) (c : Call X) (w : World)
  : (X + JsError) * World :=
  match c in Call X return (X + JsError) -> (X + JsError) * World with
  | SecureStore_getItemAsync key => fun r =>
      match r with
      | inl _ => (inl (secureStore w !! key), w)
      | inr e => (inr e, w)
      end
  | SecureStore_setItemAsync key v => fun r =>
      match r with
      | inl _ => (inl tt, with_store (<[key := v]> (secureStore w)) w)
      | inr e => (inr e, w)
      end
  | SecureStore_deleteItemAsync key => fun r =>
      match r with
      | inl _ => (inl tt, with_store (delete key (secureStore w)) w)
      | inr e => (inr e, w)
      end
  | _ => fun r => (r, w)
  end (env _ c).

(** *** One call run on its own *)

(** The outcome of an async function: the value its promise resolves with,
    or the error it rejects with. *)
Record Run (A : Type) := mkRun {
  outcome : A + JsError;
  final : World;
  trace : list World
}.
Arguments mkRun {A} _ _ _.
Arguments outcome {A} _.
Arguments final {A} _.
Arguments trace {A} _.

(** Runs [p] to its end with no other task in between; [trace] lists the
    world after each effect, in order. *)
Fixpoint run {A : Type} (env : Env) (p : Async A) (w : World) : Run A :=
  match p with
  | Ret a => mkRun (inl a) w []
  | Throw e => mkRun (inr e) w []
  | Do act k =>
      let w' := apply_action act w in
      let r := run env k w' in
      mkRun (outcome r) (final r) (w' :: trace r)
  | Await c k =>
      let w1 := initiate c w in
      let '(res, w2) := complete env c w1 in
      let r := run env (k res) w2 in
      mkRun (outcome r) (final r) (w1 :: w2 :: trace r)
  end.

(** The world at process start, over the store the device kept. *)
Definition boot (store : gmap string jsstring) : World :=
  mkWorld VNull true store VNull [] [] [] [] [] (mkScreen [] false false).

(** The name under which the source makes a call. *)
Definition call_name {X : Type} (c : Call X) : string :=
  match c with
  | SecureStore_getItemAsync _ => "SecureStore.getItemAsync"
  | SecureStore_setItemAsync _ _ => "SecureStore.setItemAsync"
  | SecureStore_deleteItemAsync _ => "SecureStore.deleteItemAsync"
  | api_post _ _ => "api.post"
  | api_updatePushToken _ => "api.updatePushToken"
  | GoogleSignin_hasPlayServices => "GoogleSignin.hasPlayServices"
  | GoogleSignin_signIn => "GoogleSignin.signIn"
  | Notifications_setNotificationChannelAsync _ => "Notifications.setNotificationChannelAsync"
  | Notifications_getPermissionsAsync => "Notifications.getPermissionsAsync"
  | Notifications_requestPermissionsAsync => "Notifications.requestPermissionsAsync"
  | Notifications_getExpoPushTokenAsync _ => "Notifications.getExpoPushTokenAsync"
  end.

(** The calls a run makes, in order: the same run as [run], observed on the
    calls instead of the worlds. *)
Fixpoint awaited {A : Type} (env : Env) (p : Async A) (w : World) : list string :=
  match p with
  | Ret _ | Throw _ => []
  | Do act k => awaited env k (apply_action act w)
  | Await c k =>
      let '(res, w2) := complete env c (initiate c w) in
      call_name c :: awaited env (k res) w2
  end.

(** *** Calls in flight together *)

(** What a task of the pool resolves with. *)
Inductive Output :=
| OAuth (r : AuthResult)
| OVoid.

(** A task: suspended at an [await], queued to go on now that the awaited
    call has settled, or finished. *)
Inductive Task :=
| Awaiting {X : Type} (c : Call X) (k : X + JsError -> Async Output)
| Queued (p : Async Output)
| Finished (r : Output + JsError).

(** Runs a function body up to its next [await]: JavaScript does not
    interleave anything with this. *)
Fixpoint advance (p : Async Output) (w : World) : Task * World :=
  match p with
  | Ret a => (Finished (inl a), w)
  | Throw e => (Finished (inr e), w)
  | Do act k => advance k (apply_action act w)
  | Await c k => (Awaiting c k, initiate c w)
  end.

Record Sys := mkSys {
  world : World;
  tasks : list Task
}.

(** What can happen next. *)
Inductive Event :=
| Invoke (p : Async Output)        (* the application calls an async function *)
| Settle (i : nat) (env : Env)     (* the call that task [i] awaits settles *)
| Resume (i : nat)                 (* the queued task [i] goes on *)
| RunEffect (rt : Runtime).        (* React runs the oldest effect it owes *)

Definition invoke (p : Async Output) (s : Sys) : Sys :=
  let '(t, w) := advance p (world s) in
  mkSys w (tasks s ++ [t]).

Definition step (ev : Event) (s : Sys) : Sys :=
  match ev with
  | Invoke p => invoke p s
  | Settle i env =>
      match tasks s !! i with
      | Some (Awaiting c k) =>
          let '(res, w) := complete env c (world s) in
          mkSys w (<[i := Queued (k res)]> (tasks s))
      | _ => s
      end
  | Resume i =>
      match tasks s !! i with
      | Some (Queued p) =>
          let '(t, w) := advance p (world s) in
          mkSys w (<[i := t]> (tasks s))
      | _ => s
      end
  | RunEffect rt =>
      match effectQueue (world s) with
      | [] => s
      | u :: rest =>
          let w := world s in
          let w' := mkWorld (user w) (isLoading w) (secureStore w) (apiUserId w)
                            (requests w) (pushUploads w) (tokenRequests w) (console w) rest (screen w) in
          invoke (pushTokenEffect rt u ;; Ret OVoid) (mkSys w' (tasks s))
      end
  end.

Definition steps (evs : list Event) (s : Sys) : Sys :=
  fold_left (fun s ev => step ev s) evs s.

Definition auth_task (p : Async AuthResult) : Async Output :=
  r <- p ;; Ret (OAuth r).

Definition void_task (p : Async unit) : Async Output :=
  p ;; Ret OVoid.

(** ** Vocabulary of the statements *)

(** The outside resolves the call [c]. *)
Definition resolves {X : Type} (env : Env) (c : Call X) : Prop :=
  exists x, env X c = inl x.

(** The outside rejects the call [c] with [e]. *)
Definition rejects {X : Type} (env : Env) (c : Call X) (e : JsError) : Prop :=
  env X c = inr e.

(** The session as three parties see it: the in-memory user, the stored
    record, the id bound for outgoing requests. *)
Definition retained (w w' : World) : Prop :=
  user w' = user w /\ secureStore w' = secureStore w /\ apiUserId w' = apiUserId w.

(** The promise resolved with [{success: false, error}]. *)
Definition failure (o : AuthResult + JsError) : Prop :=
  exists msg, o = inl (mkResult false (Some msg)).


(** The event concerns task [i]. *)
Definition targets (i : nat) (ev : Event) : bool :=
  match ev with
  | Settle j _ | Resume j => bool_decide (j = i)
  | Invoke _ | RunEffect _ => false
  end.

(** Events of the rest of the application, none of them task [i]'s. *)
Definition others (i : nat) (evs : list Event) : Prop :=
  Forall (fun ev => targets i ev = false) evs.

(** One round of task [i]: while other things happen ([before], [between]),
    the call it awaits settles, and later it goes on to its next [await]. *)
Definition round (i : nat) (env : Env) (before between : list Event) : list Event :=
  before ++ [Settle i env] ++ between ++ [Resume i].

(** The three parties agree: nobody is signed in, nothing is stored and
    nothing is bound; or a session [u] is the user, its serialization is
    the stored record and its id is bound. *)
Definition consistent (w : World) : Prop :=
  (user w = VNull /\ secureStore w !! USER_KEY = None /\ apiUserId w = VNull) \/
  (exists u, user w = User_value u /\
             secureStore w !! USER_KEY = Some (JSON_stringify u) /\
             apiUserId w = VStr (User.id u)).


(** A member with the id [i] is in the selection [l]. *)
Definition has_id (i : jsstring) (l : list Member) : bool :=
  existsb (fun s => jsstring_eqb (Member._id s) i) l.

(** ** Scenarios *)

Definition alice : User := User.mk (js "1") (js "A") (js "a@x.com").

Definition bob : User := User.mk (js "2") (js "B") (js "b@x.com").

Definition server_returns (u : User) : Response :=
  mkResponse (Some (mkData (Some u) (Some (User.id u)))).

Definition storage_error : JsError := mkError "Error" None None.

Definition cancelled_error : JsError :=
  mkError "Error" (Some (js "SIGN_IN_CANCELLED")) None.


Definition play_services_error : JsError :=
  mkError "Error" (Some (js "PLAY_SERVICES_NOT_AVAILABLE")) None.


Definition google_account : UserInfo :=
  mkUserInfo (Some (mkGoogleData (Some (js "google-id-token")))).

(** An outside that settles the store calls with [store], every request
    with [post], and the provider's two steps with [play] and [google]. *)
Definition scripted (store : unit + JsError) (post : Response + JsError)
    (play : unit + JsError) (google : UserInfo + JsError) : Env :=
  fun X c =>
    match c in Call X return X + JsError with
    | SecureStore_getItemAsync _ =>
        match store with inl _ => inl None | inr e => inr e end
    | SecureStore_setItemAsync _ _ => store
    | SecureStore_deleteItemAsync _ => store
    | api_post _ _ => post
    | api_updatePushToken _ => inl tt
    | GoogleSignin_hasPlayServices => play
    | GoogleSignin_signIn => google
    | Notifications_setNotificationChannelAsync _ => inl tt
    | Notifications_getPermissionsAsync => inl granted
    | Notifications_requestPermissionsAsync => inl granted
    | Notifications_getExpoPushTokenAsync _ => inl (js "ExponentPushToken[x]")
    end.

(** Everything succeeds and the server answers with [u]. *)
Definition all_well (u : User) : Env :=
  scripted (inl tt) (inl (server_returns u)) (inl tt) (inl google_account).

(** As [all_well], but the secure store throws. *)
Definition store_fails (u : User) : Env :=
  scripted (inr storage_error) (inl (server_returns u)) (inl tt) (inl google_account).

(** The provider's interactive sign-in is rejected with [e]. *)
Definition provider_fails (e : JsError) : Env :=
  scripted (inl tt) (inl (server_returns alice)) (inl tt) (inr e).

(** The world when [u] is signed in. *)
Definition signed_in (u : User) : World :=
  mkWorld (User_value u) false {[USER_KEY := JSON_stringify u]} (VStr (User.id u))
          [] [] [] [] [] (mkScreen [] false false).

Definition android : Runtime :=
  mkRuntime (mkStatusCodes (js "SIGN_IN_CANCELLED") (js "IN_PROGRESS")
                           (js "PLAY_SERVICES_NOT_AVAILABLE"))
            "android" true (Some (js "project-1")) None.

(** A source literal between double quotes. *)
Definition quoted (s : string) : jsstring := 34 :: js s ++ [34].

(** The server answers without a user and without a user id. *)
Definition empty_response : Response := mkResponse (Some (mkData None None)).

(** An error of the HTTP client carrying the server's message [msg]. *)
Definition server_error (msg : jsstring) : JsError :=
  mkError "AxiosError" (Some (js "ERR_BAD_REQUEST")) (Some msg).

(** Every request resolves with [empty_response]. *)
Definition server_declines : Env :=
  scripted (inl tt) (inl empty_response) (inl tt) (inl google_account).

(** Every request is rejected with [e]. *)
Definition server_rejects (e : JsError) : Env :=
  scripted (inl tt) (inr e) (inl tt) (inl google_account).

(** The provider signs in but hands over [info]. *)
Definition provider_gives (info : UserInfo) : Env :=
  scripted (inl tt) (inl (server_returns alice)) (inl tt) (inl info).

(** The availability check is rejected with [e]. *)
Definition services_fail (e : JsError) : Env :=
  scripted (inl tt) (inl (server_returns alice)) (inr e) (inl google_account).

(** An outside for the notification calls. *)
Definition notifying (channel : unit + JsError)
    (existing asked : PermissionStatus + JsError) (token : jsstring + JsError)
    (upload : unit + JsError) : Env :=
  fun X c =>
    match c in Call X return X + JsError with
    | SecureStore_getItemAsync _ => inl None
    | SecureStore_setItemAsync _ _ => inl tt
    | SecureStore_deleteItemAsync _ => inl tt
    | api_post _ _ => inl (server_returns alice)
    | api_updatePushToken _ => upload
    | GoogleSignin_hasPlayServices => inl tt
    | GoogleSignin_signIn => inl google_account
    | Notifications_setNotificationChannelAsync _ => channel
    | Notifications_getPermissionsAsync => existing
    | Notifications_requestPermissionsAsync => asked
    | Notifications_getExpoPushTokenAsync _ => token
    end.

Definition iphone : Runtime :=
  mkRuntime (mkStatusCodes (js "SIGN_IN_CANCELLED") (js "IN_PROGRESS")
                           (js "PLAY_SERVICES_NOT_AVAILABLE"))
            "ios" true None (Some (js "project-2")).

Definition emulator : Runtime :=
  mkRuntime (mkStatusCodes (js "SIGN_IN_CANCELLED") (js "IN_PROGRESS")
                           (js "PLAY_SERVICES_NOT_AVAILABLE"))
            "android" false (Some (js "project-1")) None.

Definition unconfigured : Runtime :=
  mkRuntime (mkStatusCodes (js "SIGN_IN_CANCELLED") (js "IN_PROGRESS")
                           (js "PLAY_SERVICES_NOT_AVAILABLE"))
            "ios" true None (Some []).

Definition new_account : SignUpData :=
  SignUpData.mk (js "A") (js "a@x.com") (js "pw") (js "9") (js "a@upi").

Definition ann : Member := Member.mk (js "m1") (js "Ann") (js "ann@x.com") None None.
Definition ben : Member := Member.mk (js "m2") (js "Ben") (js "ben@x.com") (Some (js "555")) None.

(** [toLowerCase] on the letters A to Z, enough for the scenarios. *)
Definition lower_ascii (s : jsstring) : jsstring :=
  map (fun c => if (65 <=? c) && (c <=? 90) then c + 32 else c) s.

(** * Properties *)

(** ** The runtime model on small inputs *)

Example parse_object_with_spaces :
  JSON.parse (js " { " ++ quoted "id" ++ js " : " ++ quoted "1" ++ js " , "
              ++ quoted "tags" ++ js ":[true, null, -12.50e1] } ")
  = inl (VObj [(js "id", VStr (js "1"));
               (js "tags", VArr [VBool true; VNull; VNum (-1250) (-1)])]).
Proof. vm_compute. reflexivity. Qed.

Example parse_repeated_key :
  JSON.parse (js "{" ++ quoted "id" ++ js ":1," ++ quoted "id" ++ js ":2}")
  = inl (VObj [(js "id", VNum 2 0)]).
Proof. vm_compute. reflexivity. Qed.

Example parse_escapes :
  JSON.parse (34 :: js "a\n\u00e9\ud83d" ++ [34]) = inl (VStr [97; 10; 233; 55357]).
Proof. vm_compute. reflexivity. Qed.

Example parse_rejects_trailing_comma : JSON.parse (js "[1,]") = inr SyntaxError.
Proof. vm_compute. reflexivity. Qed.

Example parse_rejects_leading_zero : JSON.parse (js "01") = inr SyntaxError.
Proof. vm_compute. reflexivity. Qed.

Example parse_rejects_plain_text : JSON.parse (js "alice") = inr SyntaxError.
Proof. vm_compute. reflexivity. Qed.

Example quote_escapes_and_surrogates :
  JSON.QuoteJSONString [65; 10; 34; 55357; 56832; 56832; 1]
  = 34 :: 65 :: js "\n\" ++ 34 :: 55357 :: 56832 :: js "\ude00\u0001" ++ [34].
Proof. vm_compute. reflexivity. Qed.

Example tiny_number_is_falsy :
  truthy (VNum 1 (-400)) = false /\ truthy (VNum 1 (-300)) = true.
Proof. split; vm_compute; reflexivity. Qed.

Example bootstrap_over_garbage :
  let r := run (all_well alice) loadStoredUser (boot {[USER_KEY := js "not json"]}) in
  user (final r) = VNull /\ isLoading (final r) = false /\
  console (final r) = [("Error loading user:", Some SyntaxError)].
Proof. repeat split; vm_compute; reflexivity. Qed.

Example bootstrap_over_a_bare_number :
  let r := run (all_well alice) loadStoredUser (boot {[USER_KEY := js "42"]}) in
  user (final r) = VNum 42 0 /\ apiUserId (final r) = VUndefined.
Proof. repeat split; vm_compute; reflexivity. Qed.

(** ** JSON: a serialized session parses back *)

Module JSONFacts.
Import JSON.

Lemma hexval_hexdigit (n : N) : n < 16 -> hexval (hexdigit n) = Some n.
Proof.
  intros Hn. rewrite <- (N2Nat.id n).
  assert (Hk : (N.to_nat n < 16)%nat) by lia.
  generalize dependent (N.to_nat n). clear Hn. intros k Hk.
  do 16 (destruct k as [| k]; [reflexivity |]). lia.
Qed.

Lemma hex4_digits (c : N) :
  c < 65536 ->
  hex4 (hexdigit (c / 4096 mod 16)) (hexdigit (c / 256 mod 16))
       (hexdigit (c / 16 mod 16)) (hexdigit (c mod 16)) = Some c.
Proof.
  intros Hc. unfold hex4.
  rewrite !hexval_hexdigit by (apply N.mod_lt; discriminate).
  f_equal.
  assert (Hsmall : c / 4096 < 16) by (apply N.Div0.div_lt_upper_bound; lia).
  rewrite (N.mod_small (c / 4096) 16) by exact Hsmall.
  replace (c / 4096) with (c / 16 / 16 / 16)
    by (rewrite !N.Div0.div_div; reflexivity).
  replace (c / 256) with (c / 16 / 16) by (rewrite N.Div0.div_div; reflexivity).
  pose proof (N.div_mod c 16) as H1.
  pose proof (N.div_mod (c / 16) 16) as H2.
  pose proof (N.div_mod (c / 16 / 16) 16) as H3.
  lia.
Qed.

Lemma parse_chars_escape (c : N) (t : jsstring) :
  c < 65536 -> parse_chars (UnicodeEscape c ++ t) = cons_result c (parse_chars t).
Proof.
  intros Hc. unfold UnicodeEscape. cbn [app parse_chars].
  change (92 =? 34) with false. change (92 =? 92) with true.
  change (117 =? 117) with true. cbv iota.
  rewrite hex4_digits by exact Hc. reflexivity.
Qed.

Lemma parse_chars_literal (c : N) (t : jsstring) :
  c <> 34 -> c <> 92 -> 32 <= c ->
  parse_chars (c :: t) = cons_result c (parse_chars t).
Proof.
  intros H34 H92 H32. cbn [parse_chars].
  apply N.eqb_neq in H34, H92. rewrite H34, H92.
  assert (Hlt : (c <? 32) = false) by (apply N.ltb_ge; exact H32).
  rewrite Hlt. reflexivity.
Qed.

Lemma parse_chars_quote_unit (c : N) (t : jsstring) :
  is_lead c = false ->
  parse_chars (quote_unit c ++ t) = cons_result c (parse_chars t).
Proof.
  intros Hlead. unfold quote_unit.
  repeat match goal with
  | |- context [if ?a =? ?b then _ else _] =>
      destruct (N.eqb_spec a b) as [-> | ?]; [reflexivity |]
  end.
  rewrite Hlead, orb_false_r.
  destruct (c <? 32) eqn:Hlow; cbn [orb].
  - apply parse_chars_escape. apply N.ltb_lt in Hlow. lia.
  - destruct (is_trail c) eqn:Htrail.
    + apply parse_chars_escape. unfold is_trail in Htrail.
      apply andb_true_iff in Htrail as [_ Hhi]. apply N.leb_le in Hhi. lia.
    + apply parse_chars_literal; try assumption. apply N.ltb_ge in Hlow. exact Hlow.
Qed.

Lemma parse_chars_quote_body (s out : jsstring) :
  parse_chars (quote_body s ++ 34 :: out) = Some (s, out).
Proof.
  remember (length s) as n eqn:Hn.
  revert s Hn. induction (lt_wf n) as [n _ IH]. intros s Hn.
  destruct s as [| c rest]; [reflexivity |].
  cbn [quote_body].
  destruct (is_lead c) eqn:Hlead.
  - assert (Hc : 55296 <= c <= 56319).
    { unfold is_lead in Hlead. apply andb_true_iff in Hlead as [Hlo Hhi].
      apply N.leb_le in Hlo, Hhi. lia. }
    destruct rest as [| d rest'].
    + rewrite parse_chars_escape by lia. reflexivity.
    + destruct (is_trail d) eqn:Htrail.
      * assert (Hd : 56320 <= d <= 57343).
        { unfold is_trail in Htrail. apply andb_true_iff in Htrail as [Hlo Hhi].
          apply N.leb_le in Hlo, Hhi. lia. }
        cbn [app]. rewrite parse_chars_literal by lia.
        rewrite parse_chars_literal by lia.
        rewrite (IH (length rest')); [reflexivity | subst n; cbn; lia | reflexivity].
      * rewrite <- app_assoc. rewrite parse_chars_escape by lia.
        rewrite (IH (length (d :: rest'))); [reflexivity | subst n; cbn; lia | reflexivity].
  - rewrite <- app_assoc. rewrite parse_chars_quote_unit by exact Hlead.
    rewrite (IH (length rest)); [reflexivity | subst n; cbn; lia | reflexivity].
Qed.

Lemma JSON_stringify_shape (u : User) :
  JSON_stringify u =
  123 :: 34 :: 105 :: 100 :: 34 :: 58 :: 34 :: quote_body (User.id u)
  ++ 34 :: 44 :: 34 :: 110 :: 97 :: 109 :: 101 :: 34 :: 58 :: 34 :: quote_body (User.name u)
  ++ 34 :: 44 :: 34 :: 101 :: 109 :: 97 :: 105 :: 108 :: 34 :: 58 :: 34
     :: quote_body (User.email u)
  ++ [34; 125].
Proof.
  unfold JSON_stringify, QuoteJSONString.
  change (js "{") with [123]. change (js "}") with [125].
  change (js ":") with [58]. change (js ",") with [44].
  change (quote_body (js "id")) with [105; 100].
  change (quote_body (js "name")) with [110; 97; 109; 101].
  change (quote_body (js "email")) with [101; 109; 97; 105; 108].
  cbn [app]. repeat (rewrite <- app_assoc; cbn [app]). reflexivity.
Qed.

Lemma parse_value_stringify (u : User) (fuel : nat) :
  parse_value (S (S (S (S (S fuel))))) (JSON_stringify u) = Some (User_value u, []).
Proof.
  rewrite JSON_stringify_shape.
  cbn. rewrite parse_chars_quote_body.
  cbn. rewrite parse_chars_quote_body.
  cbn. rewrite parse_chars_quote_body.
  reflexivity.
Qed.

(** [JSON.parse(JSON.stringify({id, name, email}))] is [{id, name, email}]. *)
Lemma parse_stringify (u : User) :
  JSON.parse (JSON_stringify u) = inl (User_value u).
Proof.
  unfold JSON.parse.
  assert (Hws : skip_ws (JSON_stringify u) = JSON_stringify u)
    by (rewrite JSON_stringify_shape; reflexivity).
  rewrite Hws.
  assert (Hlen : exists fuel, (2 * length (JSON_stringify u) + 2)%nat = S (S (S (S (S fuel))))).
  { rewrite JSON_stringify_shape. cbn [length]. eexists. 
    rewrite Nat.mul_succ_r. cbn [Nat.add]. rewrite Nat.mul_succ_r. cbn [Nat.add].
    rewrite !Nat.add_succ_r. reflexivity. }
  destruct Hlen as [fuel ->].
  rewrite parse_value_stringify. reflexivity.
Qed.

End JSONFacts.

(** Symbolic execution of a run: unfold the program and the interpreter,
    nothing else. *)
Ltac exec :=
  cbn [run try_catch try_finally bind await perform lift complete initiate
       api_bind api_issue api_upload apply_action outcome final trace with_store boot
       user isLoading secureStore apiUserId requests pushUploads tokenRequests console
       effectQueue screen User.id User.name User.email
       SignUpData.name SignUpData.email].

(** Closes a case from the hypotheses about how the calls settled. *)
Ltac close_cases :=
  repeat match goal with
  | H : resolves _ _ |- _ => destruct H
  | H : rejects _ _ _ |- _ => unfold rejects in H
  | H : _ \/ _ |- _ => destruct H
  | H : exists _, _ |- _ => destruct H
  | H : _ /\ _ |- _ => destruct H
  end;
  simplify_eq;
  repeat match goal with
  | H1 : ?a = _, H2 : ?a = _ |- _ => rewrite H1 in H2; simplify_eq
  end;
  try reflexivity; try congruence.

(** ** Bootstrap *)

Lemma member_User_id (u : User) : member (User_value u) (js "id") = inl (VStr (User.id u)).
Proof. reflexivity. Qed.

Lemma parse_empty : JSON.parse [] = inr SyntaxError.
Proof. reflexivity. Qed.

(** Bootstrap over a store whose record parses to a session. *)
Lemma loadStoredUser_valid (env : Env) (m : gmap string jsstring) (text : jsstring) (u : User) :
  resolves env (SecureStore_getItemAsync USER_KEY) ->
  m !! USER_KEY = Some text ->
  JSON.parse text = inl (User_value u) ->
  let r := run env loadStoredUser (boot m) in
  user (final r) = User_value u /\ apiUserId (final r) = VStr (User.id u) /\
  isLoading (final r) = false.
Proof.
  intros [o Hget] Hm Hparse.
  destruct text as [| c text]; [rewrite parse_empty in Hparse; discriminate |].
  unfold loadStoredUser. exec. rewrite Hget. exec. rewrite Hm. exec.
  rewrite Hparse. exec. rewrite member_User_id. exec. auto.
Qed.

(** C6. Bootstrap over any store, however the store read settles:
    [isLoading] starts true and ends false, the function resolves, and the
    store is not written. On a record that parses to a session
    [{id, name, email}] the user is that session and its id is bound; on a
    missing or unparsable record (or a failed read) the user is [null] and
    nothing is bound. *)
Theorem bootstrap_restores_or_anonymous (env : Env) (m : gmap string jsstring) :
  let r := run env loadStoredUser (boot m) in
  isLoading (boot m) = true /\
  outcome r = inl tt /\
  isLoading (final r) = false /\
  secureStore (final r) = m /\
  (forall text u,
      resolves env (SecureStore_getItemAsync USER_KEY) ->
      m !! USER_KEY = Some text ->
      JSON.parse text = inl (User_value u) ->
      user (final r) = User_value u /\ apiUserId (final r) = VStr (User.id u)) /\
  (m !! USER_KEY = None \/
   (exists text e, m !! USER_KEY = Some text /\ JSON.parse text = inr e) \/
   (exists e, rejects env (SecureStore_getItemAsync USER_KEY) e) ->
   user (final r) = VNull /\ apiUserId (final r) = VNull).
Proof.
  unfold loadStoredUser. exec.
  destruct (env _ (SecureStore_getItemAsync USER_KEY)) as [o | e0] eqn:Hget; exec.
  - destruct (m !! USER_KEY) as [[| c text] |] eqn:Hm; exec.
    + pose proof parse_empty. repeat split; intros; close_cases.
    + destruct (JSON.parse (c :: text)) as [v | e1] eqn:Hparse; exec.
      * destruct (member v (js "id")) as [uid | e2] eqn:Hid; exec;
          repeat split; intros; close_cases;
          try (rewrite member_User_id in Hid; close_cases).
      * repeat split; intros; close_cases.
    + repeat split; intros; close_cases.
  - repeat split; intros; close_cases.
Qed.

(** ** Establishing a session *)

Lemma User_eta (u : User) : User.mk (User.id u) (User.name u) (User.email u) = u.
Proof. destruct u; reflexivity. Qed.

(** What a successful [signIn] leaves behind. *)
Lemma signIn_success (env : Env) (w : World) (email password : jsstring)
    (response : Response) (X : User) :
  env _ (api_post "/api/auth/signin" (SignInBody email password)) = inl response ->
  resp_data response ≫= data_user = Some X ->
  resolves env (SecureStore_setItemAsync USER_KEY (JSON_stringify X)) ->
  let r := run env (signIn email password) w in
  outcome r = inl (mkResult true None) /\
  user (final r) = User_value X /\
  apiUserId (final r) = VStr (User.id X) /\
  secureStore (final r) = <[USER_KEY := JSON_stringify X]> (secureStore w).
Proof.
  intros Hpost Huser [[] Hset].
  unfold signIn. exec. rewrite Hpost. exec. rewrite Huser. exec.
  rewrite User_eta, Hset. exec. auto.
Qed.

(** C8. A [signIn] for which the server returns the user record [X] and the
    store write succeeds returns [{success: true}]; the in-memory user is
    [X]; the store holds exactly [JSON.stringify(X)] under the key; and a
    cold restart over that store (bootstrap, with the store read
    succeeding) restores exactly [X] and binds its id. *)
Theorem signIn_round_trip (env env' : Env) (w : World) (email password : jsstring)
    (response : Response) (X : User) :
  env _ (api_post "/api/auth/signin" (SignInBody email password)) = inl response ->
  resp_data response ≫= data_user = Some X ->
  resolves env (SecureStore_setItemAsync USER_KEY (JSON_stringify X)) ->
  resolves env' (SecureStore_getItemAsync USER_KEY) ->
  let r := run env (signIn email password) w in
  let r' := run env' loadStoredUser (boot (secureStore (final r))) in
  outcome r = inl (mkResult true None) /\
  user (final r) = User_value X /\
  secureStore (final r) !! USER_KEY = Some (JSON_stringify X) /\
  user (final r') = User_value X /\
  apiUserId (final r') = VStr (User.id X) /\
  isLoading (final r') = false.
Proof.
  intros Hpost Huser Hset Hget r r'.
  destruct (signIn_success env w email password response X Hpost Huser Hset)
    as (Hout & Hu & _ & Hstore).
  fold r in Hout, Hu, Hstore.
  assert (Hlook : secureStore (final r) !! USER_KEY = Some (JSON_stringify X))
    by (rewrite Hstore; apply lookup_insert_eq).
  destruct (loadStoredUser_valid env' (secureStore (final r)) (JSON_stringify X) X
              Hget Hlook (JSONFacts.parse_stringify X)) as (Hu' & Hid' & Hload).
  fold r' in Hu', Hid', Hload.
  auto 10.
Qed.

Ltac retained_all := repeat constructor.

(** C1. In each of [signIn], [signInWithGoogle] and [signUp]: when the
    adapter succeeds but [SecureStore.setItemAsync] throws, the operation
    resolves with a failure result, and the user, the stored record and the
    bound id are what they were, at the end and at every point of the run. *)
Theorem persistence_failure_aborts (rt : Runtime) (env : Env) (w : World) (e : JsError) :
  (forall email password response X,
      env _ (api_post "/api/auth/signin" (SignInBody email password)) = inl response ->
      resp_data response ≫= data_user = Some X ->
      rejects env (SecureStore_setItemAsync USER_KEY (JSON_stringify X)) e ->
      let r := run env (signIn email password) w in
      failure (outcome r) /\ retained w (final r) /\ Forall (retained w) (trace r)) /\
  (forall userInfo c tok response X,
      resolves env GoogleSignin_hasPlayServices ->
      env _ GoogleSignin_signIn = inl userInfo ->
      info_data userInfo ≫= idToken = Some (c :: tok) ->
      env _ (api_post "/api/auth/google" (GoogleBody (c :: tok))) = inl response ->
      resp_data response ≫= data_user = Some X ->
      rejects env (SecureStore_setItemAsync USER_KEY (JSON_stringify X)) e ->
      let r := run env (signInWithGoogle rt) w in
      failure (outcome r) /\ retained w (final r) /\ Forall (retained w) (trace r)) /\
  (forall data response c userId,
      env _ (api_post "/api/auth/signup" (SignUpBody data)) = inl response ->
      resp_data response ≫= data_userId = Some (c :: userId) ->
      rejects env (SecureStore_setItemAsync USER_KEY
                     (JSON_stringify (User.mk (c :: userId) (SignUpData.name data)
                                              (SignUpData.email data)))) e ->
      let r := run env (signUp data) w in
      failure (outcome r) /\ retained w (final r) /\ Forall (retained w) (trace r)).
Proof.
  unfold failure, retained, rejects. split; [| split].
  - intros email password response X Hpost Huser Hset.
    unfold signIn. exec. rewrite Hpost. exec. rewrite Huser. exec.
    rewrite User_eta, Hset. exec. split; [eauto | retained_all].
  - intros userInfo c tok response X [[] Hplay] Hsign Htok Hpost Huser Hset.
    unfold signInWithGoogle. exec. rewrite Hplay. exec. rewrite Hsign. exec.
    rewrite Htok. exec. rewrite Hpost. exec. rewrite Huser. exec.
    rewrite User_eta, Hset. exec.
    repeat (match goal with |- context [if ?b then _ else _] => destruct b end; exec);
      (split; [eauto | retained_all]).
  - intros data response c userId Hpost Huser Hset.
    unfold signUp. exec. rewrite Hpost. exec. rewrite Huser. exec.
    rewrite Hset. exec. split; [eauto | retained_all].
Qed.

(** ** Sign-out *)

(** C4, as stated, fails: signed in as [alice], a [signOut] whose storage
    clear throws leaves [alice] signed in. *)
Lemma signOut_clear_error_keeps_session :
  ~ (forall (env : Env) (w : World),
        let r := run env signOut w in
        outcome r = inl tt /\ user (final r) = VNull /\
        secureStore (final r) !! USER_KEY = None /\ apiUserId (final r) = VNull).
Proof.
  intros H. destruct (H (store_fails alice) (signed_in alice)) as (_ & Huser & _).
  vm_compute in Huser. discriminate.
Qed.

(** C4, amended. [signOut] resolves (never throws) in every state. When the
    storage clear succeeds, the user is [null], the record is gone and the
    bound id is [null]; when it throws, the error is logged and the user,
    the record and the bound id are left as they were. So of two calls in
    a row neither throws, and the state is Anonymous after both as soon as
    one of the two clears succeeds. *)
Theorem signOut_total (env env2 : Env) (w : World) :
  let r := run env signOut w in
  let r2 := run env2 signOut (final r) in
  outcome r = inl tt /\
  (resolves env (SecureStore_deleteItemAsync USER_KEY) ->
   user (final r) = VNull /\ secureStore (final r) !! USER_KEY = None /\
   apiUserId (final r) = VNull) /\
  (forall e, rejects env (SecureStore_deleteItemAsync USER_KEY) e ->
   retained w (final r) /\
   console (final r) = console w ++ [("Sign out error:", Some e)]) /\
  outcome r2 = inl tt /\
  (resolves env (SecureStore_deleteItemAsync USER_KEY) \/
   resolves env2 (SecureStore_deleteItemAsync USER_KEY) ->
   user (final r2) = VNull /\ secureStore (final r2) !! USER_KEY = None /\
   apiUserId (final r2) = VNull).
Proof.
  unfold retained, signOut. exec.
  destruct (env _ (SecureStore_deleteItemAsync USER_KEY)) as [[] | e1] eqn:H1; exec;
    destruct (env2 _ (SecureStore_deleteItemAsync USER_KEY)) as [[] | e2] eqn:H2; exec;
    repeat split; intros; close_cases;
    rewrite ?lookup_delete_eq; try reflexivity.
Qed.

(** ** Forgot password *)

(** C9. In every state, [forgotPassword] resolves; with [{success: true}]
    whenever the request completes without error; and the user, the stored
    record and the bound id are untouched, at the end and at every point of
    the run. *)
Theorem forgotPassword_frame (env : Env) (w : World) (email : jsstring) :
  let r := run env (forgotPassword email) w in
  (resolves env (api_post "/api/auth/forgot-password" (ForgotPasswordBody email)) ->
   outcome r = inl (mkResult true None)) /\
  (exists res, outcome r = inl res) /\
  retained w (final r) /\
  Forall (retained w) (trace r).
Proof.
  unfold forgotPassword, retained. exec.
  destruct (env _ (api_post "/api/auth/forgot-password" (ForgotPasswordBody email)))
    as [response | e] eqn:Hpost; exec.
  - split; [reflexivity |]. split; [eauto |]. retained_all.
  - split; [intros; close_cases |]. split; [eauto |]. retained_all.
Qed.

(** ** Google sign-in: the failure vocabulary *)


(** ** Validation *)

(** C10, as stated, fails for each of the three operations: with an empty
    email the request is still issued, and a server that accepts it makes
    [signIn] and [signUp] succeed; [forgotPassword] succeeds as soon as the
    request completes. *)
Lemma empty_email_reaches_the_network :
  let rejected_unsent (r : Run AuthResult) (w : World) :=
    failure (outcome r) /\ requests (final r) = requests w in
  ~ (forall env w password, rejected_unsent (run env (signIn [] password) w) w) /\
  ~ (forall env w data, SignUpData.email data = [] ->
                        rejected_unsent (run env (signUp data) w) w) /\
  ~ (forall env w, rejected_unsent (run env (forgotPassword []) w) w).
Proof.
  unfold failure. repeat split.
  - intros H. destruct (H (all_well alice) (boot ∅) (js "pw")) as [[msg Hmsg] _].
    vm_compute in Hmsg. discriminate.
  - intros H.
    destruct (H (all_well alice)
                (boot ∅) (SignUpData.mk (js "A") [] (js "pw") (js "1") (js "a@upi"))
                eq_refl) as [[msg Hmsg] _].
    vm_compute in Hmsg. discriminate.
  - intros H. destruct (H (all_well alice) (boot ∅)) as [[msg Hmsg] _].
    vm_compute in Hmsg. discriminate.
Qed.

(** C10, amended. The three operations do not validate their arguments:
    whatever the email, empty or not, each issues its request, exactly one,
    and the reply decides the result. An empty email is rejected before any
    network call by the forgot-password screen, which sets its error
    message and does not call [forgotPassword]. *)
Theorem operations_send_unvalidated (env : Env) (w : World) :
  (forall email password,
      requests (final (run env (signIn email password) w))
      = requests w ++ [("/api/auth/signin", SignInBody email password)]) /\
  (forall data,
      requests (final (run env (signUp data) w))
      = requests w ++ [("/api/auth/signup", SignUpBody data)]) /\
  (forall email,
      requests (final (run env (forgotPassword email) w))
      = requests w ++ [("/api/auth/forgot-password", ForgotPasswordBody email)]) /\
  (let r := run env (handleResetPassword []) w in
   outcome r = inl tt /\ requests (final r) = requests w /\
   screen_error (screen (final r)) = js "Please enter your email address") /\
  (forall c email,
      requests (final (run env (handleResetPassword (c :: email)) w))
      = requests w ++ [("/api/auth/forgot-password", ForgotPasswordBody (c :: email))]).
Proof.
  repeat split.
  - intros email password. unfold signIn. exec.
    destruct (env _ (api_post "/api/auth/signin" (SignInBody email password)))
      as [response | e]; exec; [| reflexivity].
    match goal with
    | |- context [try_catch (match ?o with _ => _ end) _] => destruct o as [X |]
    end; exec; [| reflexivity].
    destruct (env _ (SecureStore_setItemAsync _ _)) as [[] | e]; exec; reflexivity.
  - intros data. unfold signUp. exec.
    destruct (env _ (api_post "/api/auth/signup" (SignUpBody data)))
      as [response | e]; exec; [| reflexivity].
    match goal with
    | |- context [try_catch (match ?o with _ => _ end) _] => destruct o as [[| c userId] |]
    end; exec; try reflexivity.
    destruct (env _ (SecureStore_setItemAsync _ _)) as [[] | e]; exec; reflexivity.
  - intros email. unfold forgotPassword. exec.
    destruct (env _ (api_post _ _)) as [response | e]; exec; reflexivity.
  - intros c email. unfold handleResetPassword, forgotPassword. exec.
    destruct (env _ (api_post _ _)) as [response | e]; exec; reflexivity.
Qed.

(** ** Switching accounts *)

(** C2, as stated, fails: signed in as [alice], a successful [signIn] as
    [bob] passes through a point, between the settling of the store write
    and the rest of the function, where the store holds [bob]'s record while
    the bound id and the user are still [alice]'s; and at no point of the
    call is the record absent or the bound id [null]. *)
Lemma switch_mixes_identities :
  let call := signIn (js "b@x.com") (js "pw") in
  let s := steps [Invoke (auth_task call); Settle 0 (all_well bob); Resume 0;
                  Settle 0 (all_well bob)]
                 (mkSys (signed_in alice) []) in
  secureStore (world s) !! USER_KEY = Some (JSON_stringify bob) /\
  apiUserId (world s) = VStr (User.id alice) /\
  user (world s) = User_value alice /\
  Forall (fun w' => secureStore w' !! USER_KEY <> None /\ apiUserId w' <> VNull)
         (trace (run (all_well bob) call (signed_in alice))).
Proof.
  repeat split; try (vm_compute; reflexivity).
  vm_compute. repeat constructor; discriminate.
Qed.

(** C2, amended. A successful [signIn] as [B], whatever the state before,
    does not clear anything first: it writes [B]'s record over the stored
    one, then binds [B]'s id, then sets the user to [B], in this order. Once
    the call is over the stored record, the bound id and the user are all
    [B]'s, so the bound id is the session's id. *)
Theorem switch_overwrites_in_order (env : Env) (w : World) (email password : jsstring)
    (response : Response) (B : User) :
  env _ (api_post "/api/auth/signin" (SignInBody email password)) = inl response ->
  resp_data response ≫= data_user = Some B ->
  resolves env (SecureStore_setItemAsync USER_KEY (JSON_stringify B)) ->
  let r := run env (signIn email password) w in
  let w1 := initiate (api_post "/api/auth/signin" (SignInBody email password)) w in
  let w2 := with_store (<[USER_KEY := JSON_stringify B]> (secureStore w)) w1 in
  let w3 := apply_action (api_setUserId (VStr (User.id B))) w2 in
  let w4 := apply_action (setUser (User_value B)) w3 in
  outcome r = inl (mkResult true None) /\
  trace r = [w1; w1; w1; w2; w3; w4] /\
  final r = w4 /\
  secureStore (final r) !! USER_KEY = Some (JSON_stringify B) /\
  apiUserId (final r) = VStr (User.id B) /\
  user (final r) = User_value B.
Proof.
  intros Hpost Huser [[] Hset].
  unfold signIn. exec. rewrite Hpost. exec. rewrite Huser. exec.
  rewrite User_eta, Hset. exec.
  repeat split; try reflexivity. apply lookup_insert_eq.
Qed.

(** ** Calls in flight together *)

Lemma steps_app (evs1 evs2 : list Event) (s : Sys) :
  steps (evs1 ++ evs2) s = steps evs2 (steps evs1 s).
Proof. unfold steps. apply fold_left_app. Qed.

Lemma steps_cons (ev : Event) (evs : list Event) (s : Sys) :
  steps (ev :: evs) s = steps evs (step ev s).
Proof. reflexivity. Qed.

Lemma invoke_tasks (p : Async Output) (s : Sys) :
  invoke p s = mkSys (advance p (world s)).2 (tasks s ++ [(advance p (world s)).1]).
Proof. unfold invoke. destruct (advance p (world s)); reflexivity. Qed.

Lemma invoke_lookup (p : Async Output) (s : Sys) :
  tasks (invoke p s) !! length (tasks s) = Some (advance p (world s)).1.
Proof. rewrite invoke_tasks. cbn [tasks]. apply list_lookup_middle. reflexivity. Qed.

Lemma settle_step (i : nat) (env : Env) (s : Sys) {X : Type} (c : Call X)
    (k : X + JsError -> Async Output) :
  tasks s !! i = Some (Awaiting c k) ->
  step (Settle i env) s
  = mkSys (complete env c (world s)).2
          (<[i := Queued (k (complete env c (world s)).1)]> (tasks s)).
Proof.
  intros Hi. cbn [step]. rewrite Hi. destruct (complete env c (world s)); reflexivity.
Qed.

Lemma resume_step (i : nat) (s : Sys) (p : Async Output) :
  tasks s !! i = Some (Queued p) ->
  step (Resume i) s
  = mkSys (advance p (world s)).2 (<[i := (advance p (world s)).1]> (tasks s)).
Proof.
  intros Hi. cbn [step]. rewrite Hi. destruct (advance p (world s)); reflexivity.
Qed.

Lemma lookup_replaced (l : list Task) (i : nat) (t t' : Task) :
  l !! i = Some t -> <[i := t']> l !! i = Some t'.
Proof. intros Hi. apply list_lookup_insert_eq. eapply lookup_lt_Some, Hi. Qed.

(** What the others do leaves task [i] as it is. *)
Lemma step_frame (i : nat) (ev : Event) (s : Sys) (t : Task) :
  targets i ev = false -> tasks s !! i = Some t -> tasks (step ev s) !! i = Some t.
Proof.
  intros Hev Hi. destruct ev as [p | j env | j | rt]; cbn [step targets] in *.
  - rewrite invoke_tasks. cbn [tasks]. apply lookup_app_l_Some, Hi.
  - apply bool_decide_eq_false in Hev.
    destruct (tasks s !! j) as [[X c k | p | r] |]; try exact Hi.
    destruct (complete env c (world s)). cbn [tasks].
    rewrite list_lookup_insert_ne by exact Hev. exact Hi.
  - apply bool_decide_eq_false in Hev.
    destruct (tasks s !! j) as [[X c k | p | r] |]; try exact Hi.
    destruct (advance p (world s)). cbn [tasks].
    rewrite list_lookup_insert_ne by exact Hev. exact Hi.
  - destruct (effectQueue (world s)); [exact Hi |].
    rewrite invoke_tasks. cbn [tasks]. apply lookup_app_l_Some, Hi.
Qed.

Lemma steps_frame (i : nat) (evs : list Event) (s : Sys) (t : Task) :
  others i evs -> tasks s !! i = Some t -> tasks (steps evs s) !! i = Some t.
Proof.
  intros Hevs. revert s. induction Hevs as [| ev evs Hev _ IH]; intros s Hi.
  - exact Hi.
  - rewrite steps_cons. apply IH, step_frame; assumption.
Qed.

(** A round of task [i], suspended at [c]: it ends where its continuation,
    given how [c] settled, reaches its next [await]. The worlds are those
    the others left. *)
Lemma round_step (i : nat) (env : Env) (before between : list Event) (s : Sys)
    {X : Type} (c : Call X) (k : X + JsError -> Async Output) :
  others i before -> others i between ->
  tasks s !! i = Some (Awaiting c k) ->
  exists w w',
    let s' := steps (round i env before between) s in
    tasks s' !! i = Some (advance (k (complete env c w).1) w').1 /\
    world s' = (advance (k (complete env c w).1) w').2.
Proof.
  intros Hbefore Hbetween Hi. unfold round.
  pose proof (steps_frame i before s _ Hbefore Hi) as H1.
  set (s1 := steps before s) in *.
  pose proof (settle_step i env s1 c k H1) as H2.
  assert (H3 : tasks (step (Settle i env) s1) !! i
               = Some (Queued (k (complete env c (world s1)).1))).
  { rewrite H2. cbn [tasks]. eapply lookup_replaced, H1. }
  set (s2 := step (Settle i env) s1) in *.
  pose proof (steps_frame i between s2 _ Hbetween H3) as H4.
  set (s3 := steps between s2) in *.
  pose proof (resume_step i s3 _ H4) as H5.
  exists (world s1), (world s3).
  cbn zeta. rewrite !steps_app. cbn [steps fold_left].
  fold (steps before s). fold s1. fold s2. fold (steps between s2). fold s3.
  rewrite H5. cbn [tasks world]. split; [| reflexivity].
  eapply lookup_replaced, H4.
Qed.

Ltac exec_task H :=
  cbn [advance auth_task void_task bind try_catch try_finally await perform lift
       complete initiate api_bind api_issue api_upload apply_action fst snd with_store
       User.id User.name User.email SignUpData.name SignUpData.email] in H.

(** Runs one round of task [i] from the hypothesis [Hi] on what it awaits;
    [Hi] then tells where the task is after the round. *)
Ltac next_round_as Hi Hbefore Hbetween w' Hw :=
  rewrite steps_app;
  let w := fresh "w" in
  let Hi' := fresh "Hi" in
  match goal with
  | |- context [steps (round ?i ?env ?before ?between) ?s] =>
      destruct (round_step i env before between s _ _ Hbefore Hbetween Hi)
        as (w & w' & Hi' & Hw);
      clear Hi; rename Hi' into Hi;
      set (steps (round i env before between) s) in *
  end;
  exec_task Hi; exec_task Hw.

Ltac next_round Hi Hbefore Hbetween :=
  let w' := fresh "w'" in
  let Hw := fresh "Hw" in
  next_round_as Hi Hbefore Hbetween w' Hw.

(** C3, as stated, fails: [signIn] and [signInWithGoogle] issued together
    are both carried out. The second call is not turned away: it is
    suspended on the provider's availability check like a call made alone.
    Both resolve with [{success: true}], and the session of the first is
    overwritten by that of the second. *)
Lemma concurrent_establish_both_succeed :
  let first := auth_task (signIn (js "a@x.com") (js "pw")) in
  let second := auth_task (signInWithGoogle android) in
  let s0 := steps [Invoke first; Invoke second] (mkSys (boot ∅) []) in
  let s := steps [Settle 0 (all_well alice); Resume 0;
                  Settle 1 (all_well bob); Resume 1;
                  Settle 1 (all_well bob); Resume 1;
                  Settle 1 (all_well bob); Resume 1;
                  Settle 0 (all_well alice); Settle 1 (all_well bob);
                  Resume 0; Resume 1] s0 in
  (exists k, tasks s0 !! 1%nat = Some (Awaiting GoogleSignin_hasPlayServices k)) /\
  tasks s = [Finished (inl (OAuth (mkResult true None)));
             Finished (inl (OAuth (mkResult true None)))] /\
  user (world s) = User_value bob /\
  apiUserId (world s) = VStr (User.id bob) /\
  secureStore (world s) !! USER_KEY = Some (JSON_stringify bob).
Proof.
  split; [eexists; reflexivity |].
  repeat split; vm_compute; reflexivity.
Qed.

(** C3, amended. There is no single-flight guard. A call of [signIn],
    [signInWithGoogle] or [signUp] made while any other tasks are in
    flight is started like any call, suspended on its first request; and
    whatever the other tasks do meanwhile, once its own calls have settled
    with the adapter and the store write succeeding it resolves with
    [{success: true}]. *)
Theorem establish_calls_are_not_serialized (rt : Runtime) (s : Sys) (env : Env) :
  let i := length (tasks s) in
  (forall email password response X o1 o2 o3 o4 o5,
      others i o1 -> others i o2 -> others i o3 -> others i o4 -> others i o5 ->
      env _ (api_post "/api/auth/signin" (SignInBody email password)) = inl response ->
      resp_data response ≫= data_user = Some X ->
      resolves env (SecureStore_setItemAsync USER_KEY (JSON_stringify X)) ->
      let s0 := invoke (auth_task (signIn email password)) s in
      (exists k, tasks s0 !! i
                 = Some (Awaiting (api_post "/api/auth/signin" (SignInBody email password)) k)) /\
      tasks (steps (round i env o1 o2 ++ round i env o3 o4 ++ o5) s0) !! i
      = Some (Finished (inl (OAuth (mkResult true None))))) /\
  (forall data response c userId o1 o2 o3 o4 o5,
      others i o1 -> others i o2 -> others i o3 -> others i o4 -> others i o5 ->
      env _ (api_post "/api/auth/signup" (SignUpBody data)) = inl response ->
      resp_data response ≫= data_userId = Some (c :: userId) ->
      resolves env (SecureStore_setItemAsync USER_KEY
                      (JSON_stringify (User.mk (c :: userId) (SignUpData.name data)
                                               (SignUpData.email data)))) ->
      let s0 := invoke (auth_task (signUp data)) s in
      (exists k, tasks s0 !! i
                 = Some (Awaiting (api_post "/api/auth/signup" (SignUpBody data)) k)) /\
      tasks (steps (round i env o1 o2 ++ round i env o3 o4 ++ o5) s0) !! i
      = Some (Finished (inl (OAuth (mkResult true None))))) /\
  (forall userInfo c tok response X o1 o2 o3 o4 o5 o6 o7 o8 o9,
      others i o1 -> others i o2 -> others i o3 -> others i o4 -> others i o5 ->
      others i o6 -> others i o7 -> others i o8 -> others i o9 ->
      resolves env GoogleSignin_hasPlayServices ->
      env _ GoogleSignin_signIn = inl userInfo ->
      info_data userInfo ≫= idToken = Some (c :: tok) ->
      env _ (api_post "/api/auth/google" (GoogleBody (c :: tok))) = inl response ->
      resp_data response ≫= data_user = Some X ->
      resolves env (SecureStore_setItemAsync USER_KEY (JSON_stringify X)) ->
      let s0 := invoke (auth_task (signInWithGoogle rt)) s in
      (exists k, tasks s0 !! i = Some (Awaiting GoogleSignin_hasPlayServices k)) /\
      tasks (steps (round i env o1 o2 ++ round i env o3 o4 ++ round i env o5 o6
                    ++ round i env o7 o8 ++ o9) s0) !! i
      = Some (Finished (inl (OAuth (mkResult true None))))).
Proof.
  intros i. split; [| split].
  - intros email password response X o1 o2 o3 o4 o5 H1 H2 H3 H4 H5 Hpost Huser [[] Hset] s0.
    pose proof (invoke_lookup (auth_task (signIn email password)) s) as Hi.
    fold i in Hi. fold s0 in Hi. unfold signIn in Hi. exec_task Hi.
    split; [eexists; exact Hi |].
    next_round Hi H1 H2. rewrite Hpost in Hi. exec_task Hi.
    rewrite Huser in Hi. exec_task Hi. rewrite User_eta in Hi.
    next_round Hi H3 H4. rewrite Hset in Hi. exec_task Hi.
    apply steps_frame; assumption.
  - intros data response c userId o1 o2 o3 o4 o5 H1 H2 H3 H4 H5 Hpost Huser [[] Hset] s0.
    pose proof (invoke_lookup (auth_task (signUp data)) s) as Hi.
    fold i in Hi. fold s0 in Hi. unfold signUp in Hi. exec_task Hi.
    split; [eexists; exact Hi |].
    next_round Hi H1 H2. rewrite Hpost in Hi. exec_task Hi.
    rewrite Huser in Hi. exec_task Hi.
    next_round Hi H3 H4. rewrite Hset in Hi. exec_task Hi.
    apply steps_frame; assumption.
  - intros userInfo c tok response X o1 o2 o3 o4 o5 o6 o7 o8 o9 H1 H2 H3 H4 H5 H6 H7 H8 H9
           [[] Hplay] Hsign Htok Hpost Huser [[] Hset] s0.
    pose proof (invoke_lookup (auth_task (signInWithGoogle rt)) s) as Hi.
    fold i in Hi. fold s0 in Hi. unfold signInWithGoogle in Hi. exec_task Hi.
    split; [eexists; exact Hi |].
    next_round Hi H1 H2. rewrite Hplay in Hi. exec_task Hi.
    next_round Hi H3 H4. rewrite Hsign in Hi. exec_task Hi.
    rewrite Htok in Hi. exec_task Hi.
    next_round Hi H5 H6. rewrite Hpost in Hi. exec_task Hi.
    rewrite Huser in Hi. exec_task Hi. rewrite User_eta in Hi.
    next_round Hi H7 H8. rewrite Hset in Hi. exec_task Hi.
    apply steps_frame; assumption.
Qed.

(** ** Push-token registration *)









(** ** The theorems at work on the scenarios *)

Lemma bootstrap_restores_or_anonymous_witness :
  let m : gmap string jsstring := {[USER_KEY := JSON_stringify alice]} in
  let r := run (all_well alice) loadStoredUser (boot m) in
  let r0 := run (all_well alice) loadStoredUser (boot ∅) in
  (user (final r) = User_value alice /\ apiUserId (final r) = VStr (js "1")) /\
  (user (final r0) = VNull /\ apiUserId (final r0) = VNull).
Proof.
  intros m r r0. split.
  - pose proof (bootstrap_restores_or_anonymous (all_well alice) m) as H.
    cbv zeta in H. destruct H as (_ & _ & _ & _ & Hvalid & _).
    apply (Hvalid (JSON_stringify alice) alice).
    + eexists. reflexivity.
    + vm_compute. reflexivity.
    + vm_compute. reflexivity.
  - pose proof (bootstrap_restores_or_anonymous (all_well alice) ∅) as H.
    cbv zeta in H. destruct H as (_ & _ & _ & _ & _ & Habsent).
    apply Habsent. left. vm_compute. reflexivity.
Defined.

Lemma signIn_round_trip_witness :
  let r := run (all_well alice) (signIn (js "a@x.com") (js "pw")) (boot ∅) in
  let r' := run (all_well alice) loadStoredUser (boot (secureStore (final r))) in
  JSON_stringify alice
  = js "{" ++ quoted "id" ++ js ":" ++ quoted "1" ++ js "," ++ quoted "name" ++ js ":"
    ++ quoted "A" ++ js "," ++ quoted "email" ++ js ":" ++ quoted "a@x.com" ++ js "}" /\
  outcome r = inl (mkResult true None) /\
  user (final r) = User_value alice /\
  secureStore (final r) !! USER_KEY = Some (JSON_stringify alice) /\
  user (final r') = User_value alice /\
  apiUserId (final r') = VStr (js "1") /\
  isLoading (final r') = false.
Proof.
  split; [vm_compute; reflexivity |].
  apply (signIn_round_trip (all_well alice) (all_well alice) (boot ∅) (js "a@x.com") (js "pw")
                           (server_returns alice) alice).
  - reflexivity.
  - reflexivity.
  - eexists. reflexivity.
  - eexists. reflexivity.
Defined.

Lemma persistence_failure_aborts_witness :
  let env := store_fails alice in
  let r1 := run env (signIn (js "a@x.com") (js "pw")) (signed_in bob) in
  let r2 := run env (signInWithGoogle android) (signed_in bob) in
  let r3 := run env (signUp (SignUpData.mk (js "A") (js "a@x.com") (js "pw") (js "9") (js "a@upi")))
                (signed_in bob) in
  (failure (outcome r1) /\ retained (signed_in bob) (final r1)) /\
  (failure (outcome r2) /\ retained (signed_in bob) (final r2)) /\
  (failure (outcome r3) /\ retained (signed_in bob) (final r3)).
Proof.
  intros env r1 r2 r3.
  pose proof (persistence_failure_aborts android env (signed_in bob) storage_error)
    as (Hin & Hgoogle & Hup).
  split; [| split].
  - destruct (Hin (js "a@x.com") (js "pw") (server_returns alice) alice)
      as (Hf & Hr & _); [reflexivity | reflexivity | reflexivity |].
    split; assumption.
  - destruct (Hgoogle google_account 103 (js "oogle-id-token") (server_returns alice) alice)
      as (Hf & Hr & _);
      [eexists; reflexivity | reflexivity | reflexivity | reflexivity | reflexivity
       | reflexivity |].
    split; assumption.
  - destruct (Hup (SignUpData.mk (js "A") (js "a@x.com") (js "pw") (js "9") (js "a@upi"))
                  (server_returns alice) 49 [])
      as (Hf & Hr & _); [reflexivity | reflexivity | reflexivity |].
    split; assumption.
Defined.

Lemma signOut_total_witness :
  let r := run (all_well alice) signOut (signed_in alice) in
  let r' := run (store_fails alice) signOut (signed_in alice) in
  (user (final r) = VNull /\ secureStore (final r) !! USER_KEY = None /\
   apiUserId (final r) = VNull) /\
  (retained (signed_in alice) (final r') /\
   console (final r') = [("Sign out error:", Some storage_error)]).
Proof.
  split.
  - pose proof (signOut_total (all_well alice) (all_well alice) (signed_in alice)) as H.
    cbv zeta in H. destruct H as (_ & Hok & _).
    apply Hok. eexists. reflexivity.
  - pose proof (signOut_total (store_fails alice) (all_well alice) (signed_in alice)) as H.
    cbv zeta in H. destruct H as (_ & _ & Hfail & _).
    apply (Hfail storage_error). reflexivity.
Defined.

Lemma forgotPassword_frame_witness :
  outcome (run (all_well alice) (forgotPassword (js "x@y.com")) (boot ∅))
  = inl (mkResult true None).
Proof.
  pose proof (forgotPassword_frame (all_well alice) (boot ∅) (js "x@y.com")) as H.
  cbv zeta in H. destruct H as (Hok & _).
  apply Hok. eexists. reflexivity.
Defined.


Lemma switch_overwrites_in_order_witness :
  let r := run (all_well bob) (signIn (js "b@x.com") (js "pw")) (signed_in alice) in
  outcome r = inl (mkResult true None) /\
  secureStore (final r) !! USER_KEY = Some (JSON_stringify bob) /\
  apiUserId (final r) = VStr (js "2") /\
  user (final r) = User_value bob.
Proof.
  pose proof (switch_overwrites_in_order (all_well bob) (signed_in alice) (js "b@x.com")
                (js "pw") (server_returns bob) bob) as H.
  cbv zeta in H.
  destruct H as (Hout & _ & _ & Hstore & Hid & Huser);
    [reflexivity | reflexivity | eexists; reflexivity |].
  repeat split; assumption.
Defined.

Lemma establish_calls_are_not_serialized_witness :
  let s := invoke (auth_task (signInWithGoogle android)) (mkSys (boot ∅) []) in
  let env := all_well alice in
  let meanwhile := [Settle 0 (all_well bob); Resume 0] in
  let done := Some (Finished (inl (OAuth (mkResult true None)))) in
  let data := SignUpData.mk (js "A") (js "a@x.com") (js "pw") (js "9") (js "a@upi") in
  tasks (steps (round 1 env meanwhile meanwhile ++ round 1 env meanwhile meanwhile ++ [])
               (invoke (auth_task (signIn (js "a@x.com") (js "pw"))) s)) !! 1%nat = done /\
  tasks (steps (round 1 env meanwhile meanwhile ++ round 1 env meanwhile meanwhile ++ [])
               (invoke (auth_task (signUp data)) s)) !! 1%nat = done /\
  tasks (steps (round 1 env meanwhile [] ++ round 1 env meanwhile [] ++ round 1 env [] []
                ++ round 1 env meanwhile meanwhile ++ [])
               (invoke (auth_task (signInWithGoogle android)) s)) !! 1%nat = done.
Proof.
  intros s env meanwhile done data.
  assert (Hm : others 1 meanwhile) by (repeat constructor).
  assert (Hnil : others 1 []) by constructor.
  pose proof (establish_calls_are_not_serialized android s env) as H.
  cbv zeta in H. destruct H as (Hin & Hup & Hgoogle).
  split; [| split].
  - refine (proj2 (Hin (js "a@x.com") (js "pw") (server_returns alice) alice
                       meanwhile meanwhile meanwhile meanwhile []
                       Hm Hm Hm Hm Hnil eq_refl eq_refl _)).
    eexists. reflexivity.
  - refine (proj2 (Hup data (server_returns alice) 49 []
                       meanwhile meanwhile meanwhile meanwhile []
                       Hm Hm Hm Hm Hnil eq_refl eq_refl _)).
    eexists. reflexivity.
  - refine (proj2 (Hgoogle google_account 103 (js "oogle-id-token") (server_returns alice) alice
                           meanwhile [] meanwhile [] [] [] meanwhile meanwhile []
                           Hm Hnil Hm Hnil Hnil Hnil Hm Hm Hnil _ eq_refl eq_refl eq_refl
                           eq_refl _)).
    + eexists. reflexivity.
    + eexists. reflexivity.
Defined.


(** * Further properties of the session core *)

(** Every way a run can go. *)
Ltac explore := repeat first [ progress exec | case_match ].

(** ** The other ways to establish a session *)

(** X1. A [signUp] for which the server returns a non-empty [userId] and
    the store write succeeds establishes the session made of that id and of
    the submitted name and email (the server echoes neither; password,
    phone and UPI id are not kept); the record is stored and a cold restart
    restores the same session. *)
Theorem signUp_round_trip (env env' : Env) (w : World) (data : SignUpData)
    (response : Response) (c : N) (userId : jsstring) :
  let X := User.mk (c :: userId) (SignUpData.name data) (SignUpData.email data) in
  env _ (api_post "/api/auth/signup" (SignUpBody data)) = inl response ->
  resp_data response ≫= data_userId = Some (c :: userId) ->
  resolves env (SecureStore_setItemAsync USER_KEY (JSON_stringify X)) ->
  resolves env' (SecureStore_getItemAsync USER_KEY) ->
  let r := run env (signUp data) w in
  let r' := run env' loadStoredUser (boot (secureStore (final r))) in
  outcome r = inl (mkResult true None) /\
  user (final r) = User_value X /\
  apiUserId (final r) = VStr (c :: userId) /\
  secureStore (final r) = <[USER_KEY := JSON_stringify X]> (secureStore w) /\
  user (final r') = User_value X /\
  apiUserId (final r') = VStr (c :: userId).
Proof.
  intros X Hpost Huser [[] Hset] Hget r r'.
  assert (Hrun : outcome r = inl (mkResult true None) /\
                 user (final r) = User_value X /\
                 apiUserId (final r) = VStr (c :: userId) /\
                 secureStore (final r) = <[USER_KEY := JSON_stringify X]> (secureStore w)).
  { subst r. unfold signUp. exec. rewrite Hpost. exec. rewrite Huser. exec.
    fold X. rewrite Hset. exec. auto. }
  destruct Hrun as (Hout & Hu & Hid & Hstore).
  assert (Hlook : secureStore (final r) !! USER_KEY = Some (JSON_stringify X))
    by (rewrite Hstore; apply lookup_insert_eq).
  destruct (loadStoredUser_valid env' (secureStore (final r)) (JSON_stringify X) X
              Hget Hlook (JSONFacts.parse_stringify X)) as (Hu' & Hid' & _).
  auto 10.
Qed.

(** X2. A [signInWithGoogle] in which the provider gives a non-empty id
    token, the server answers the exchange with a user record and the store
    write succeeds: the only request issued is the exchange carrying that
    token, the result is [{success: true}], and a cold restart restores
    the user the server returned. *)
Theorem signInWithGoogle_round_trip (rt : Runtime) (env env' : Env) (w : World)
    (userInfo : UserInfo) (c : N) (tok : jsstring) (response : Response) (X : User) :
  resolves env GoogleSignin_hasPlayServices ->
  env _ GoogleSignin_signIn = inl userInfo ->
  info_data userInfo ≫= idToken = Some (c :: tok) ->
  env _ (api_post "/api/auth/google" (GoogleBody (c :: tok))) = inl response ->
  resp_data response ≫= data_user = Some X ->
  resolves env (SecureStore_setItemAsync USER_KEY (JSON_stringify X)) ->
  resolves env' (SecureStore_getItemAsync USER_KEY) ->
  let r := run env (signInWithGoogle rt) w in
  let r' := run env' loadStoredUser (boot (secureStore (final r))) in
  outcome r = inl (mkResult true None) /\
  requests (final r) = requests w ++ [("/api/auth/google", GoogleBody (c :: tok))] /\
  user (final r) = User_value X /\
  apiUserId (final r) = VStr (User.id X) /\
  user (final r') = User_value X /\
  apiUserId (final r') = VStr (User.id X).
Proof.
  intros [[] Hplay] Hsign Htok Hpost Huser [[] Hset] Hget r r'.
  assert (Hrun : outcome r = inl (mkResult true None) /\
                 requests (final r)
                 = requests w ++ [("/api/auth/google", GoogleBody (c :: tok))] /\
                 user (final r) = User_value X /\
                 apiUserId (final r) = VStr (User.id X) /\
                 secureStore (final r) = <[USER_KEY := JSON_stringify X]> (secureStore w)).
  { subst r. unfold signInWithGoogle. exec. rewrite Hplay. exec. rewrite Hsign. exec.
    rewrite Htok. exec. rewrite Hpost. exec. rewrite Huser. exec.
    rewrite User_eta, Hset. exec. auto 10. }
  destruct Hrun as (Hout & Hreq & Hu & Hid & Hstore).
  assert (Hlook : secureStore (final r) !! USER_KEY = Some (JSON_stringify X))
    by (rewrite Hstore; apply lookup_insert_eq).
  destruct (loadStoredUser_valid env' (secureStore (final r)) (JSON_stringify X) X
              Hget Hlook (JSONFacts.parse_stringify X)) as (Hu' & Hid' & _).
  auto 10.
Qed.

(** ** Results and failures *)




(** X4. [signIn] when the server declines. A response without a user gives
    ["Invalid credentials"] and, the request apart, changes nothing and logs
    nothing. A rejected request gives the server's message as it is when
    there is a non-empty one, ["Sign in failed"] otherwise; the error is
    logged and the session is untouched. In neither case is the store
    written. *)
Theorem signIn_rejection (env : Env) (w : World) (email password : jsstring) :
  let r := run env (signIn email password) w in
  let request := api_post "/api/auth/signin" (SignInBody email password) in
  (forall response,
      env _ request = inl response ->
      resp_data response ≫= data_user = None ->
      outcome r = inl (mkResult false (Some (js "Invalid credentials"))) /\
      final r = api_issue "/api/auth/signin" (SignInBody email password) w /\
      awaited env (signIn email password) w = ["api.post"]) /\
  (forall e,
      rejects env request e ->
      retained w (final r) /\
      console (final r) = console w ++ [("Sign in error:", Some e)] /\
      awaited env (signIn email password) w = ["api.post"] /\
      (forall c msg, err_response_message e = Some (c :: msg) ->
                     outcome r = inl (mkResult false (Some (c :: msg)))) /\
      (err_response_message e = None \/ err_response_message e = Some [] ->
       outcome r = inl (mkResult false (Some (js "Sign in failed"))))).
Proof.
  unfold rejects, retained, signIn. cbn zeta. split.
  - intros response Hpost Huser. exec. cbn [awaited complete initiate bind try_catch await].
    rewrite Hpost. exec. cbn [awaited complete initiate bind try_catch await].
    rewrite Huser. auto.
  - intros e Hpost. exec. cbn [awaited complete initiate bind try_catch await].
    rewrite Hpost. exec. cbn [awaited complete initiate bind try_catch await perform].
    repeat split.
    + intros c msg ->. reflexivity.
    + intros [-> | ->]; reflexivity.
Qed.

(** X5. [signUp] when registration fails. A response with no [userId], or
    with an empty one, gives ["Registration failed"]; a rejected request
    gives the server's non-empty message or else ["Sign up failed"], and is
    logged. In every case the session is untouched, the store is not
    written and only the one request is made. *)
Theorem signUp_rejection (env : Env) (w : World) (data : SignUpData) :
  let r := run env (signUp data) w in
  let request := api_post "/api/auth/signup" (SignUpBody data) in
  (forall response,
      env _ request = inl response ->
      resp_data response ≫= data_userId = None \/
      resp_data response ≫= data_userId = Some [] ->
      outcome r = inl (mkResult false (Some (js "Registration failed"))) /\
      final r = api_issue "/api/auth/signup" (SignUpBody data) w /\
      awaited env (signUp data) w = ["api.post"]) /\
  (forall e,
      rejects env request e ->
      retained w (final r) /\
      console (final r) = console w ++ [("Sign up error:", Some e)] /\
      awaited env (signUp data) w = ["api.post"] /\
      (forall c msg, err_response_message e = Some (c :: msg) ->
                     outcome r = inl (mkResult false (Some (c :: msg)))) /\
      (err_response_message e = None \/ err_response_message e = Some [] ->
       outcome r = inl (mkResult false (Some (js "Sign up failed"))))).
Proof.
  unfold rejects, retained, signUp. cbn zeta. split.
  - intros response Hpost Huser. exec. cbn [awaited complete initiate bind try_catch await].
    rewrite Hpost. exec. cbn [awaited complete initiate bind try_catch await].
    destruct Huser as [-> | ->]; auto.
  - intros e Hpost. exec. cbn [awaited complete initiate bind try_catch await].
    rewrite Hpost. exec. cbn [awaited complete initiate bind try_catch await perform].
    repeat split.
    + intros c msg ->. reflexivity.
    + intros [-> | ->]; reflexivity.
Qed.

(** X6. [signInWithGoogle] reaches the server only with a token. When the
    availability check fails the interactive sign-in is not even started;
    when the check or the sign-in fails, or the provider gives no token or
    an empty one, no request is issued and the store is not written. With
    no token the result is ["Failed to get ID token"] and nothing at all
    has changed. *)
Theorem google_without_token_sends_nothing (rt : Runtime) (env : Env) (w : World) :
  let r := run env (signInWithGoogle rt) w in
  let calls := awaited env (signInWithGoogle rt) w in
  (forall e, rejects env GoogleSignin_hasPlayServices e ->
             calls = ["GoogleSignin.hasPlayServices"] /\
             requests (final r) = requests w /\ retained w (final r)) /\
  (forall e, resolves env GoogleSignin_hasPlayServices ->
             rejects env GoogleSignin_signIn e ->
             calls = ["GoogleSignin.hasPlayServices"; "GoogleSignin.signIn"] /\
             requests (final r) = requests w /\ retained w (final r)) /\
  (forall userInfo,
      resolves env GoogleSignin_hasPlayServices ->
      env _ GoogleSignin_signIn = inl userInfo ->
      info_data userInfo ≫= idToken = None \/ info_data userInfo ≫= idToken = Some [] ->
      calls = ["GoogleSignin.hasPlayServices"; "GoogleSignin.signIn"] /\
      outcome r = inl (mkResult false (Some (js "Failed to get ID token"))) /\
      final r = w).
Proof.
  unfold rejects, retained, signInWithGoogle, code_is. cbn zeta. split; [| split].
  - intros e Hplay. exec. cbn [awaited complete initiate bind try_catch await perform].
    rewrite Hplay. exec. cbn [awaited complete initiate bind try_catch await perform].
    repeat case_bool_decide; exec; cbn [awaited]; auto.
  - intros e [[] Hplay] Hsign. exec. cbn [awaited complete initiate bind try_catch await perform].
    rewrite Hplay. exec. cbn [awaited complete initiate bind try_catch await perform].
    rewrite Hsign. exec. cbn [awaited complete initiate bind try_catch await perform].
    repeat case_bool_decide; exec; cbn [awaited]; auto.
  - intros userInfo [[] Hplay] Hsign Htok. exec.
    cbn [awaited complete initiate bind try_catch await perform].
    rewrite Hplay. exec. cbn [awaited complete initiate bind try_catch await perform].
    rewrite Hsign. exec. cbn [awaited complete initiate bind try_catch await perform].
    destruct w. destruct Htok as [-> | ->]; auto.
Qed.

(** ** The session seen from its three parties *)

Ltac keep_consistent H :=
  first
    [ exact H
    | right; eexists; split; [reflexivity | split; [apply lookup_insert_eq | reflexivity]]
    | left; split; [reflexivity | split; [apply lookup_delete_eq | reflexivity]] ].

(** X7. The in-memory user, the stored record and the bound id agree
    before and after every public operation run on its own, however its
    calls settle: a state where nobody is signed in and nothing is stored
    or bound, or where all three are one session's, is taken to a state of
    the same kind by [signIn], [signInWithGoogle], [signUp],
    [forgotPassword] and [signOut]. *)
Theorem operations_keep_the_parties_agreed (rt : Runtime) (env : Env) (w : World) :
  consistent w ->
  (forall email password, consistent (final (run env (signIn email password) w))) /\
  consistent (final (run env (signInWithGoogle rt) w)) /\
  (forall data, consistent (final (run env (signUp data) w))) /\
  (forall email, consistent (final (run env (forgotPassword email) w))) /\
  consistent (final (run env signOut w)).
Proof.
  intros H. unfold consistent in *. repeat split.
  - intros email password. unfold signIn. explore; simplify_eq; exec; keep_consistent H.
  - unfold signInWithGoogle, code_is. explore; simplify_eq; exec; keep_consistent H.
  - intros data. unfold signUp. explore; simplify_eq; exec; keep_consistent H.
  - intros email. unfold forgotPassword. explore; simplify_eq; exec; keep_consistent H.
  - unfold signOut. explore; simplify_eq; exec; keep_consistent H.
Qed.

Lemma loadStoredUser_store (env : Env) (m : gmap string jsstring) :
  secureStore (final (run env loadStoredUser (boot m))) = m.
Proof.
  unfold loadStoredUser. exec.
  destruct (env _ (SecureStore_getItemAsync USER_KEY)) as [o | e0]; exec; [| reflexivity].
  destruct (m !! USER_KEY) as [[| c text] |]; exec; try reflexivity.
  destruct (JSON.parse (c :: text)) as [v | e1]; exec; [| reflexivity].
  destruct (member v (js "id")) as [uid | e2]; exec; reflexivity.
Qed.

(** X8. What is stored decides who is signed in after a restart: from a
    state where the three parties agree, a cold restart whose store read
    succeeds brings back the same user and the same bound id, leaves the
    store as it was, and ends the loading. *)
Theorem restart_restores_the_session (env : Env) (w : World) :
  consistent w ->
  resolves env (SecureStore_getItemAsync USER_KEY) ->
  let r := run env loadStoredUser (boot (secureStore w)) in
  user (final r) = user w /\
  apiUserId (final r) = apiUserId w /\
  secureStore (final r) = secureStore w /\
  isLoading (final r) = false /\
  consistent (final r).
Proof.
  intros Hw Hget r.
  assert (Hparts : user (final r) = user w /\ apiUserId (final r) = apiUserId w /\
                   secureStore (final r) = secureStore w /\ isLoading (final r) = false).
  { destruct Hw as [(Hu & Hs & Hb) | (u & Hu & Hs & Hb)].
    - subst r. destruct Hget as [o Hget]. unfold loadStoredUser. exec.
      rewrite Hget. exec. rewrite Hs, Hu, Hb. exec. auto.
    - destruct (loadStoredUser_valid env (secureStore w) (JSON_stringify u) u
                  Hget Hs (JSONFacts.parse_stringify u)) as (Hu' & Hid' & Hload).
      fold r in Hu', Hid', Hload. rewrite Hu, Hb. repeat split; try assumption.
      apply loadStoredUser_store. }
  destruct Hparts as (Hu & Hb & Hs & Hl). repeat split; try assumption.
  unfold consistent in *. rewrite Hu, Hb, Hs. exact Hw.
Qed.

(** X9. When the effect on [[user]] is owed. An operation that resolves
    with a failure owes none; an establish operation that succeeds owes
    exactly one, for the user it set; [forgotPassword] never owes one. So a
    failed sign-in never starts a push registration. *)
Theorem effect_owed_on_success_only (rt : Runtime) (env : Env) (w : World) :
  let owed (r : Run AuthResult) :=
    forall res, outcome r = inl res ->
                effectQueue (final r)
                = if success res then effectQueue w ++ [user (final r)] else effectQueue w in
  (forall email password, owed (run env (signIn email password) w)) /\
  owed (run env (signInWithGoogle rt) w) /\
  (forall data, owed (run env (signUp data) w)) /\
  (forall email, effectQueue (final (run env (forgotPassword email) w)) = effectQueue w).
Proof.
  cbn zeta. repeat split.
  - intros email password. unfold signIn. explore; intros res Hres; simplify_eq; exec; reflexivity.
  - unfold signInWithGoogle, code_is. explore; intros res Hres; simplify_eq; exec; reflexivity.
  - intros data. unfold signUp. explore; intros res Hres; simplify_eq; exec; reflexivity.
  - intros email. unfold forgotPassword. explore; simplify_eq; exec; reflexivity.
Qed.

(** ** What the tab layout shows *)

Lemma User_value_truthy (u : User) : truthy (User_value u) = true.
Proof. reflexivity. Qed.

(** X10. The tab layout follows the session. During bootstrap it renders
    nothing, and never again afterwards. Once loading is over, an operation
    that succeeds in establishing a session brings the tabs, one that fails
    leaves on screen what was there, [forgotPassword] changes nothing, and
    [signOut] redirects to the sign-in screen when the storage clear
    succeeds but leaves the tabs up when it throws. *)
Theorem layout_follows_the_session (rt : Runtime) (env : Env) (w : World)
    (m : gmap string jsstring) :
  let shown (w : World) := TabLayout (user w) (isLoading w) in
  let after (r : Run AuthResult) :=
    forall res, outcome r = inl res ->
                shown (final r) = if success res then TheTabs else shown w in
  (shown (boot m) = Nothing /\ shown (final (run env loadStoredUser (boot m))) <> Nothing) /\
  (isLoading w = false ->
   (forall email password, after (run env (signIn email password) w)) /\
   after (run env (signInWithGoogle rt) w) /\
   (forall data, after (run env (signUp data) w)) /\
   (forall email, shown (final (run env (forgotPassword email) w)) = shown w) /\
   (resolves env (SecureStore_deleteItemAsync USER_KEY) ->
    shown (final (run env signOut w)) = RedirectToSignIn) /\
   (forall e, rejects env (SecureStore_deleteItemAsync USER_KEY) e ->
              shown (final (run env signOut w)) = shown w)).
Proof.
  cbn zeta. split.
  - split; [reflexivity |].
    unfold loadStoredUser. exec.
    destruct (env _ (SecureStore_getItemAsync USER_KEY)) as [o | e0]; exec;
      [| unfold TabLayout; cbn; discriminate].
    destruct (m !! USER_KEY) as [[| c text] |]; exec;
      try (unfold TabLayout; cbn; discriminate).
    destruct (JSON.parse (c :: text)) as [v | e1]; exec;
      [| unfold TabLayout; cbn; discriminate].
    destruct (member v (js "id")) as [uid | e2]; exec;
      unfold TabLayout; cbn [negb]; destruct (truthy v); discriminate.
  - intros Hloaded. unfold rejects. repeat split.
    + intros email password. unfold signIn.
      explore; intros res Hres; simplify_eq; exec; rewrite ?Hloaded; reflexivity.
    + unfold signInWithGoogle, code_is.
      explore; intros res Hres; simplify_eq; exec; rewrite ?Hloaded; reflexivity.
    + intros data. unfold signUp.
      explore; intros res Hres; simplify_eq; exec; rewrite ?Hloaded; reflexivity.
    + intros email. unfold forgotPassword. explore; simplify_eq; exec; reflexivity.
    + intros [[] Hdel]. unfold signOut. exec. rewrite Hdel. exec.
      rewrite Hloaded. reflexivity.
    + intros e Hdel. unfold signOut. exec. rewrite Hdel. exec. reflexivity.
Qed.

(** ** Registering for push notifications *)

Ltac exec_calls :=
  cbn [awaited run try_catch try_finally bind await perform lift complete initiate
       api_bind api_issue api_upload apply_action outcome final trace with_store
       call_name is_granted negb orb andb app].

(** X11. The calls [registerForPushNotificationsAsync] makes when its
    set-up calls succeed: the notification channel is created on Android
    only; the permission is read on a physical device only, and asked for
    only when it is not granted already; a token is requested only with the
    permission granted and a non-empty project id. It resolves with the
    token exactly when that request is made and succeeds, and with
    [undefined] otherwise, a failed token request included. *)
Theorem registration_calls (rt : Runtime) (env : Env) (w : World)
    (existing asked : PermissionStatus) :
  let channel := if bool_decide (Platform_OS rt = "android")
                 then ["Notifications.setNotificationChannelAsync"] else [] in
  let prompt := if is_granted existing then []
                else ["Notifications.requestPermissionsAsync"] in
  let allowed := is_granted existing || is_granted asked in
  let projectId := nullish_or (expoConfig_projectId rt) (easConfig_projectId rt) in
  resolves env (Notifications_setNotificationChannelAsync "default") ->
  env _ Notifications_getPermissionsAsync = inl existing ->
  env _ Notifications_requestPermissionsAsync = inl asked ->
  let r := run env (registerForPushNotificationsAsync rt) w in
  let calls := awaited env (registerForPushNotificationsAsync rt) w in
  (Device_isDevice rt = false -> calls = channel /\ outcome r = inl None) /\
  (Device_isDevice rt = true -> allowed = false ->
   calls = channel ++ ["Notifications.getPermissionsAsync"] ++ prompt /\
   outcome r = inl None) /\
  (Device_isDevice rt = true -> allowed = true ->
   projectId = None \/ projectId = Some [] ->
   calls = channel ++ ["Notifications.getPermissionsAsync"] ++ prompt /\
   outcome r = inl None) /\
  (forall c pid,
      Device_isDevice rt = true -> allowed = true -> projectId = Some (c :: pid) ->
      calls = channel ++ ["Notifications.getPermissionsAsync"] ++ prompt
              ++ ["Notifications.getExpoPushTokenAsync"] /\
      tokenRequests (final r) = tokenRequests w ++ [c :: pid] /\
      outcome r = inl match env _ (Notifications_getExpoPushTokenAsync (c :: pid)) with
                      | inl token => Some token
                      | inr _ => None
                      end).
Proof.
  intros channel prompt allowed projectId [[] Hchan] Hget Hask r calls.
  subst channel prompt allowed projectId r calls.
  unfold registerForPushNotificationsAsync.
  repeat split; intros;
    repeat match goal with
    | H : Device_isDevice rt = _ |- _ => rewrite H
    | H : nullish_or _ _ = _ |- _ => rewrite H
    | H : _ \/ _ |- _ => destruct H
    end;
    destruct (bool_decide (Platform_OS rt = "android")); exec_calls;
    rewrite ?Hchan; exec_calls; rewrite ?Hget; exec_calls;
    destruct existing, asked; try discriminate; exec_calls;
    rewrite ?Hask; exec_calls;
    try match goal with
        | |- context [env ?X (Notifications_getExpoPushTokenAsync ?p)] =>
            destruct (env X (Notifications_getExpoPushTokenAsync p))
        end;
    exec_calls; reflexivity.
Qed.

(** X12. Which failures [registerForPushNotificationsAsync] lets through.
    Only the token request is guarded: when channel creation (on Android),
    the permission read or the permission prompt rejects, the function
    rejects with that error, logs nothing and asks for no token. *)
Theorem registration_setup_failures_escape (rt : Runtime) (env : Env) (w : World)
    (e : JsError) :
  let r := run env (registerForPushNotificationsAsync rt) w in
  let android := bool_decide (Platform_OS rt = "android") in
  let channel_ok := android = true ->
                    resolves env (Notifications_setNotificationChannelAsync "default") in
  let escaped := outcome r = inr e /\ console (final r) = console w /\
                 tokenRequests (final r) = tokenRequests w in
  (android = true ->
   rejects env (Notifications_setNotificationChannelAsync "default") e -> escaped) /\
  (channel_ok -> Device_isDevice rt = true ->
   rejects env Notifications_getPermissionsAsync e -> escaped) /\
  (forall existing,
      channel_ok -> Device_isDevice rt = true ->
      env _ Notifications_getPermissionsAsync = inl existing ->
      is_granted existing = false ->
      rejects env Notifications_requestPermissionsAsync e -> escaped).
Proof.
  cbn zeta. unfold rejects, registerForPushNotificationsAsync.
  repeat split; intros;
    repeat match goal with
    | H : Device_isDevice rt = _ |- _ => rewrite H
    | H : bool_decide _ = true |- _ => rewrite H in *
    | H : true = true -> resolves _ _ |- _ => destruct (H eq_refl) as [[] ?]; clear H
    | H : bool_decide _ = true -> resolves _ _ |- _ =>
        destruct (bool_decide (Platform_OS rt = "android")) eqn:?
    | H : false = true -> _ |- _ => clear H
    end;
    exec;
    repeat match goal with
    | H : env _ _ = _ |- _ => rewrite H; exec
    | H : is_granted _ = false |- _ => rewrite H; cbn [negb]; exec
    end;
    reflexivity.
Qed.

(** Running [p] and then [f]: the run of [bind p f]. *)
Lemma run_bind {A B : Type} (env : Env) (p : Async A) (f : A -> Async B) (w : World) :
  let rp := run env p w in
  outcome (run env (bind p f) w)
  = match outcome rp with
    | inl a => outcome (run env (f a) (final rp))
    | inr e => inr e
    end /\
  final (run env (bind p f) w)
  = match outcome rp with
    | inl a => final (run env (f a) (final rp))
    | inr e => final rp
    end.
Proof.
  cbn zeta. revert w. induction p as [a | e | act k IH | X c k IH]; intros w;
    cbn [run bind outcome final].
  - auto.
  - auto.
  - apply IH.
  - destruct (complete env c (initiate c w)) as [res w2].
    cbn [outcome final]. apply IH.
Qed.

(** X13. The effect on [[user]]. With no user ([null], or any falsy value)
    it makes no call and changes nothing. With a user it registers, and
    then: with no token it uploads nothing; a rejected upload is logged and
    the effect still resolves; but a rejection that escapes the
    registration rejects the effect too, unhandled and unlogged. *)
Theorem effect_outcomes (rt : Runtime) (env : Env) (w : World) (u : value) :
  let r := run env (pushTokenEffect rt u) w in
  let reg := run env (registerForPushNotificationsAsync rt) w in
  (truthy u = false ->
   outcome r = inl tt /\ final r = w /\ awaited env (pushTokenEffect rt u) w = []) /\
  (truthy u = true ->
   (outcome reg = inl None \/ outcome reg = inl (Some []) ->
    outcome r = inl tt /\ final r = final reg) /\
   (forall c tok e,
       outcome reg = inl (Some (c :: tok)) ->
       rejects env (api_updatePushToken (c :: tok)) e ->
       outcome r = inl tt /\
       pushUploads (final r) = pushUploads (final reg) ++ [(c :: tok, apiUserId (final reg))] /\
       console (final r)
       = console (final reg) ++ [("Failed to update push token on server:", Some e)]) /\
   (forall e, outcome reg = inr e -> outcome r = inr e /\ final r = final reg)).
Proof.
  cbn zeta. unfold pushTokenEffect. split.
  - intros ->. cbn [awaited]. exec. auto.
  - intros ->. unfold rejects.
    destruct (run_bind env (registerForPushNotificationsAsync rt)
                (fun token : option jsstring =>
                   match token with
                   | Some (c :: tok) =>
                       try_catch (await (api_updatePushToken (c :: tok)))
                         (fun err =>
                            perform (console_error "Failed to update push token on server:" err))
                   | _ => Ret tt
                   end) w) as [Hout Hfin].
    cbn zeta in Hout, Hfin. rewrite Hout, Hfin.
    destruct (outcome (run env (registerForPushNotificationsAsync rt) w))
      as [[[| c tok] |] | e0]; exec; repeat split; intros;
      repeat match goal with
      | H : _ \/ _ |- _ => destruct H
      end; simplify_eq; try reflexivity;
      match goal with
      | H : env _ _ = _ |- _ => rewrite H; exec; reflexivity
      end.
Qed.

(** ** The forgot-password screen *)

(** X14. [handleResetPassword] with a non-empty email resolves, ends with
    the loading flag down and never touches the session. When the request
    completes the screen shows success and no error; when it is rejected
    the success flag is left alone and the error shown is the server's
    non-empty message or else ["Failed to send reset email"], the
    controller's default: the screen's own fallback text is never used. *)
Theorem handleResetPassword_outcomes (env : Env) (w : World) (c : N) (email : jsstring) :
  let r := run env (handleResetPassword (c :: email)) w in
  let request := api_post "/api/auth/forgot-password" (ForgotPasswordBody (c :: email)) in
  outcome r = inl tt /\
  screen_loading (screen (final r)) = false /\
  retained w (final r) /\
  (resolves env request ->
   screen_success (screen (final r)) = true /\ screen_error (screen (final r)) = []) /\
  (forall e, rejects env request e ->
             screen_success (screen (final r)) = screen_success (screen w) /\
             screen_error (screen (final r))
             = or_else (err_response_message e) (js "Failed to send reset email")).
Proof.
  cbn zeta. unfold handleResetPassword, forgotPassword, retained, rejects. exec.
  destruct (env _ (api_post "/api/auth/forgot-password" (ForgotPasswordBody (c :: email))))
    as [response | e0] eqn:Hpost; exec; cbn [success error]; exec.
  - repeat split; intros; close_cases.
  - repeat split; intros; close_cases.
    cbn [screen_error]. destruct (err_response_message e) as [[| c' msg] |]; reflexivity.
Qed.

(** ** A sign-in in flight *)

(** X15. A [signIn] in flight is not cancelled by anything done meanwhile,
    a [signOut] included: whatever the other tasks do while it waits for
    the server and for the store, if its request and its store write
    succeed then, when it goes on after the write, it resolves with
    [{success: true}], the user and the bound id are the ones the server
    returned, and the effect on [[user]] is owed for that user. *)
Theorem sign_in_in_flight_is_not_cancelled (s : Sys) (env : Env)
    (email password : jsstring) (response : Response) (X : User)
    (o1 o2 o3 o4 : list Event) :
  let i := length (tasks s) in
  others i o1 -> others i o2 -> others i o3 -> others i o4 ->
  env _ (api_post "/api/auth/signin" (SignInBody email password)) = inl response ->
  resp_data response ≫= data_user = Some X ->
  resolves env (SecureStore_setItemAsync USER_KEY (JSON_stringify X)) ->
  let s' := steps (round i env o1 o2 ++ round i env o3 o4)
                  (invoke (auth_task (signIn email password)) s) in
  tasks s' !! i = Some (Finished (inl (OAuth (mkResult true None)))) /\
  user (world s') = User_value X /\
  apiUserId (world s') = VStr (User.id X) /\
  exists owed, effectQueue (world s') = owed ++ [User_value X].
Proof.
  intros i H1 H2 H3 H4 Hpost Huser [[] Hset] s'. subst s'.
  pose proof (invoke_lookup (auth_task (signIn email password)) s) as Hi.
  fold i in Hi. unfold signIn in Hi. exec_task Hi.
  set (s0 := invoke _ s) in *.
  rewrite <- (app_nil_r (round i env o3 o4)), app_assoc.
  rewrite <- app_assoc.
  next_round Hi H1 H2. rewrite Hpost in Hi. exec_task Hi.
  rewrite Huser in Hi. exec_task Hi. rewrite User_eta in Hi.
  next_round_as Hi H3 H4 wl Hwl. rewrite Hset in Hi, Hwl. exec_task Hi. exec_task Hwl.
  cbn [steps fold_left].
  match goal with
  | |- context [world ?sf] => set (sf' := sf) in *
  end.
  rewrite Hwl. cbn [user apiUserId effectQueue]. eauto.
Qed.

(** * Properties of the group screens *)

Module ScreenFacts.
Import GroupDetailsScreen.

Lemma jsstring_eqb_eq (a b : jsstring) : jsstring_eqb a b = true <-> a = b.
Proof. unfold jsstring_eqb. apply bool_decide_eq_true. Qed.

Lemma jsstring_eqb_refl (a : jsstring) : jsstring_eqb a a = true.
Proof. apply jsstring_eqb_eq. reflexivity. Qed.

Lemma jsstring_eqb_neq (a b : jsstring) : jsstring_eqb a b = false <-> a <> b.
Proof. unfold jsstring_eqb. apply bool_decide_eq_false. Qed.

Lemma has_id_In (i : jsstring) (l : list Member) :
  has_id i l = true <-> In i (map Member._id l).
Proof.
  unfold has_id. rewrite existsb_exists, in_map_iff. split.
  - intros (s & Hs & Heq). apply jsstring_eqb_eq in Heq. eauto.
  - intros (s & Heq & Hs). exists s. split; [exact Hs |]. apply jsstring_eqb_eq. exact Heq.
Qed.

Lemma has_id_app (i : jsstring) (l1 l2 : list Member) :
  has_id i (l1 ++ l2) = has_id i l1 || has_id i l2.
Proof. apply existsb_app. Qed.

Lemma has_id_without (i a : jsstring) (l : list Member) :
  has_id i (List.filter (fun s => negb (jsstring_eqb (Member._id s) a)) l)
  = if jsstring_eqb a i then false else has_id i l.
Proof.
  unfold has_id. induction l as [| s l IH]; cbn [List.filter existsb].
  - destruct (jsstring_eqb a i); reflexivity.
  - destruct (jsstring_eqb (Member._id s) a) eqn:Hsa; cbn [negb existsb].
    + rewrite IH. apply jsstring_eqb_eq in Hsa. rewrite Hsa.
      destruct (jsstring_eqb a i); reflexivity.
    + rewrite IH. destruct (jsstring_eqb a i) eqn:Hai; [| reflexivity].
      apply jsstring_eqb_eq in Hai. subst i. rewrite Hsa. reflexivity.
Qed.

Lemma without_absent (a : jsstring) (l : list Member) :
  has_id a l = false ->
  List.filter (fun s => negb (jsstring_eqb (Member._id s) a)) l = l.
Proof.
  unfold has_id. induction l as [| s l IH]; cbn [List.filter existsb]; [reflexivity |].
  intros H. apply orb_false_iff in H as [Hs Hl]. rewrite Hs. cbn [negb].
  rewrite IH by exact Hl. reflexivity.
Qed.

Lemma toggle_has_id (selected : list Member) (member : Member) (i : jsstring) :
  let flipped :=
    if jsstring_eqb (Member._id member) i
    then negb (has_id (Member._id member) selected)
    else has_id i selected in
  has_id i (toggleInvite selected member) = flipped /\
  has_id i (CreateGroupScreen.toggleMember selected member) = flipped.
Proof.
  cbn zeta. unfold CreateGroupScreen.toggleMember, toggleInvite.
  fold (has_id (Member._id member) selected).
  destruct (has_id (Member._id member) selected) eqn:Hsel.
  - rewrite has_id_without. split; reflexivity.
  - rewrite has_id_app. cbn [has_id existsb]. rewrite orb_false_r.
    destruct (jsstring_eqb (Member._id member) i) eqn:Hi.
    + rewrite orb_true_r. split; reflexivity.
    + rewrite orb_false_r. split; reflexivity.
Qed.

(** X16. [toggleInvite], and [toggleMember] of the create-group screen,
    flip one member and nothing else: afterwards the toggled member's id is
    selected exactly when it was not before, and every other id is selected
    exactly when it was. *)
Theorem toggle_flips_one (selected : list Member) (member : Member) (i : jsstring) :
  let flipped :=
    if jsstring_eqb (Member._id member) i
    then negb (has_id (Member._id member) selected)
    else has_id i selected in
  has_id i (toggleInvite selected member) = flipped /\
  has_id i (CreateGroupScreen.toggleMember selected member) = flipped.
Proof. exact (toggle_has_id selected member i). Qed.

Lemma NoDup_map_filter {A B : Type} (f : A -> B) (g : A -> bool) (l : list A) :
  List.NoDup (map f l) -> List.NoDup (map f (List.filter g l)).
Proof.
  induction l as [| x l IH]; cbn [map List.filter]; [auto |].
  intros H. inversion H as [| ? ? Hx Hl]; subst.
  destruct (g x); cbn [map]; [| auto].
  constructor; [| auto].
  intros Hin. apply Hx. apply in_map_iff in Hin as (y & Hy & Hin).
  apply filter_In in Hin as [Hin _]. apply in_map_iff. eauto.
Qed.

(** X17. A selection in which no id occurs twice stays so through
    [toggleInvite] and [toggleMember]; and toggling a member that is not
    selected, twice in a row, gives back exactly the selection there was. *)
Theorem toggle_keeps_ids_unique (selected : list Member) (member : Member) :
  (List.NoDup (map Member._id selected) ->
   List.NoDup (map Member._id (toggleInvite selected member)) /\
   List.NoDup (map Member._id (CreateGroupScreen.toggleMember selected member))) /\
  (has_id (Member._id member) selected = false ->
   toggleInvite (toggleInvite selected member) member = selected /\
   CreateGroupScreen.toggleMember (CreateGroupScreen.toggleMember selected member) member
   = selected).
Proof.
  split.
  - intros Hnd.
    assert (H : List.NoDup (map Member._id (toggleInvite selected member)));
      [| split; exact H].
    unfold toggleInvite. fold (has_id (Member._id member) selected).
    destruct (has_id (Member._id member) selected) eqn:Hsel.
    + apply NoDup_map_filter. exact Hnd.
    + rewrite map_app. cbn [map]. apply List.NoDup_app.
      * exact Hnd.
      * constructor; [intros [] | constructor].
      * intros x Hx [<- | []]. apply has_id_In in Hx. congruence.
  - intros Hsel.
    assert (H : toggleInvite (toggleInvite selected member) member = selected);
      [| split; exact H].
    unfold toggleInvite at 2.
    fold (has_id (Member._id member) selected). rewrite Hsel.
    unfold toggleInvite. fold (has_id (Member._id member) (selected ++ [member])).
    rewrite has_id_app. cbn [has_id existsb]. rewrite jsstring_eqb_refl.
    rewrite orb_true_r. rewrite List.filter_app. cbn [List.filter].
    rewrite jsstring_eqb_refl. cbn [negb].
    rewrite without_absent by exact Hsel. apply app_nil_r.
Qed.

(** X18. The suggestions of the create-group screen. A member already
    selected is never offered, whatever the search text; with an empty
    search text every suggestion not selected is offered. So selecting a
    suggestion with [toggleMember] takes it off the list, and leaves the
    suggestions with another id as they were. *)
Theorem create_group_suggestions (toLowerCase : jsstring -> jsstring)
    (suggestions selected : list Member) (searchQuery : jsstring) (s : Member) :
  let offered sel := CreateGroupScreen.filteredSuggestions toLowerCase suggestions sel
                                                           searchQuery in
  (In s (offered selected) ->
   In s suggestions /\ has_id (Member._id s) selected = false) /\
  (searchQuery = [] -> In s suggestions -> has_id (Member._id s) selected = false ->
   In s (offered selected)) /\
  (has_id (Member._id s) selected = false ->
   ~ In s (offered (CreateGroupScreen.toggleMember selected s))) /\
  (forall m, Member._id m <> Member._id s ->
             (In s (offered (CreateGroupScreen.toggleMember selected m))
              <-> In s (offered selected))).
Proof.
  cbn zeta. unfold CreateGroupScreen.filteredSuggestions.
  assert (Hfold : forall sel x,
             existsb (fun m => jsstring_eqb (Member._id m) (Member._id x)) sel
             = has_id (Member._id x) sel) by reflexivity.
  repeat split.
  - apply filter_In in H. tauto.
  - apply filter_In in H as [_ H]. cbn zeta in H. rewrite Hfold in H.
    destruct (has_id (Member._id s) selected); [discriminate | reflexivity].
  - intros -> Hin Hsel. apply filter_In. split; [exact Hin |].
    cbn zeta. rewrite Hfold, Hsel. reflexivity.
  - intros Hsel Hin. apply filter_In in Hin as [_ Hin]. cbn zeta in Hin.
    rewrite Hfold in Hin.
    destruct (toggle_has_id selected s (Member._id s)) as (_ & Hflip).
    rewrite Hflip, jsstring_eqb_refl, Hsel in Hin. discriminate.
  - intros Hin. apply filter_In in Hin as [Hin Htest]. apply filter_In.
    split; [exact Hin |]. cbn zeta in *. rewrite Hfold in *.
    destruct (toggle_has_id selected m (Member._id s)) as (_ & Hflip).
    rewrite Hflip in Htest. apply jsstring_eqb_neq in H. rewrite H in Htest. exact Htest.
  - intros Hin. apply filter_In in Hin as [Hin Htest]. apply filter_In.
    split; [exact Hin |]. cbn zeta in *. rewrite Hfold in *.
    destruct (toggle_has_id selected m (Member._id s)) as (_ & Hflip).
    rewrite Hflip. apply jsstring_eqb_neq in H. rewrite H. exact Htest.
Qed.

(** X19. The invite suggestions of the group screen. Without a loaded
    group nothing is offered, and a suggestion with an empty email is never
    offered. With an empty search text nobody whose email is already a
    member's is offered. With a search text the list no longer depends on
    who is a member: every suggestion with an email that matches the text
    is offered, members of the group included. *)
Theorem group_invite_suggestions (toLowerCase : jsstring -> jsstring)
    (suggestions : list Member) (group : Group) (searchQuery : jsstring) (s : Member) :
  let offered g q := filteredSuggestions toLowerCase suggestions g q in
  let is_member := existsb (fun m => jsstring_eqb (Member.email m) (Member.email s))
                           (members group) in
  offered None searchQuery = [] /\
  (In s (offered (Some group) searchQuery) ->
   In s suggestions /\ Member.email s <> []) /\
  (In s (offered (Some group) []) -> is_member = false) /\
  (searchQuery <> [] ->
   (forall other, offered (Some group) searchQuery = offered (Some other) searchQuery) /\
   (In s suggestions -> Member.email s <> [] ->
    matches_query toLowerCase s (toLowerCase searchQuery) = true ->
    In s (offered (Some group) searchQuery))).
Proof.
  cbn zeta. unfold filteredSuggestions. repeat split.
  - induction suggestions as [| x l IH]; [reflexivity | exact IH].
  - apply filter_In in H. tauto.
  - apply filter_In in H as [_ H]. intros Hemail. rewrite Hemail in H. discriminate.
  - intros Hin. apply filter_In in Hin as [_ H]. cbn zeta in H.
    destruct (Member.email s); [discriminate |]. cbn [length Nat.eqb] in H.
    apply negb_true_iff in H. exact H.
  - intros other. apply filter_ext. intros x.
    destruct (Member.email x); [reflexivity |].
    destruct searchQuery; [congruence | reflexivity].
  - intros Hin Hemail Hmatch. apply filter_In. split; [exact Hin |]. cbn zeta.
    destruct (Member.email s) eqn:He; [congruence |].
    destruct searchQuery; [congruence |]. cbn [length Nat.eqb]. exact Hmatch.
Qed.

(** X20. The balances of the group screen with the members' names. The
    rows stay in order with their user ids and amounts untouched; the [_id]
    of a row is its user id whether or not a member was found; the name is
    that of the first member with this id, and ["Unknown"] when the group
    has none. *)
Theorem enriched_balances_rows {Amount : Type} (balances : list (Balance Amount))
    (group : Group) :
  let enriched := enrichedBalances balances group in
  map e_user enriched = map b_user balances /\
  map e_balance enriched = map b_balance balances /\
  map e_id enriched = map b_user balances /\
  map e_name enriched
  = map (fun b => match find (fun m => jsstring_eqb (Member._id m) (b_user b))
                             (members group) with
                  | Some m => Member.name m
                  | None => js "Unknown"
                  end) balances /\
  (forall b, In b balances -> has_id (b_user b) (members group) = false ->
             In (mkEnriched (b_user b) (b_balance b) (js "Unknown") (b_user b)) enriched).
Proof.
  cbn zeta. unfold enrichedBalances. repeat split.
  - rewrite map_map. reflexivity.
  - rewrite map_map. reflexivity.
  - rewrite map_map. apply map_ext. intros b. cbn [e_id].
    destruct (find _ (members group)) as [m |] eqn:Hfind; [| reflexivity].
    apply find_some in Hfind as [_ Hm]. apply jsstring_eqb_eq in Hm. exact Hm.
  - rewrite map_map. reflexivity.
  - intros b Hin Habsent. apply in_map_iff. exists b. split; [| exact Hin].
    assert (Hnone : find (fun m => jsstring_eqb (Member._id m) (b_user b)) (members group)
                    = None).
    { destruct (find _ (members group)) as [m |] eqn:Hfind; [| reflexivity].
      apply find_some in Hfind as [Hm Heq].
      assert (has_id (b_user b) (members group) = true); [| congruence].
      unfold has_id. apply existsb_exists. eauto. }
    rewrite Hnone. reflexivity.
Qed.

(** X21. The balance shown as the user's own. With nobody signed in there
    is none. For a signed-in session it is the first balance row whose user
    id is the session's id, with its amount, and there is none exactly when
    no row has that id. *)
Theorem own_balance_is_the_session_row {Amount : Type} (balances : list (Balance Amount))
    (group : Group) (u : User) :
  let enriched := enrichedBalances balances group in
  let row := find (fun b => jsstring_eqb (b_user b) (User.id u)) balances in
  userBalance enriched VNull = None /\
  userBalance enriched VUndefined = None /\
  option_map e_user (userBalance enriched (User_value u)) = option_map b_user row /\
  option_map e_balance (userBalance enriched (User_value u)) = option_map b_balance row.
Proof.
  cbn zeta. unfold userBalance, enrichedBalances.
  change (optional_id VNull) with VUndefined.
  change (optional_id VUndefined) with VUndefined.
  change (optional_id (User_value u)) with (VStr (User.id u)).
  cbn [string_is].
  assert (Hnone : forall l : list (Enriched Amount), find (fun _ => false) l = None).
  { induction l as [| x l IH]; [reflexivity | exact IH]. }
  repeat split; try apply Hnone.
  - induction balances as [| b l IH]; [reflexivity |]. cbn [map find e_id].
    assert (Hid : match find (fun m => jsstring_eqb (Member._id m) (b_user b))
                             (members group) with
                  | Some m => Member._id m
                  | None => b_user b
                  end = b_user b).
    { destruct (find _ (members group)) as [m |] eqn:Hfind; [| reflexivity].
      apply find_some in Hfind as [_ Hm]. apply jsstring_eqb_eq in Hm. exact Hm. }
    rewrite Hid. destruct (jsstring_eqb (b_user b) (User.id u)); [reflexivity | exact IH].
  - induction balances as [| b l IH]; [reflexivity |]. cbn [map find e_id].
    assert (Hid : match find (fun m => jsstring_eqb (Member._id m) (b_user b))
                             (members group) with
                  | Some m => Member._id m
                  | None => b_user b
                  end = b_user b).
    { destruct (find _ (members group)) as [m |] eqn:Hfind; [| reflexivity].
      apply find_some in Hfind as [_ Hm]. apply jsstring_eqb_eq in Hm. exact Hm. }
    rewrite Hid. destruct (jsstring_eqb (b_user b) (User.id u)); [reflexivity | exact IH].
Qed.

End ScreenFacts.

(** * The further properties at work on the scenarios *)

Lemma signUp_round_trip_witness :
  let X := User.mk (js "1") (js "A") (js "a@x.com") in
  let r := run (all_well alice) (signUp new_account) (boot ∅) in
  let r' := run (all_well alice) loadStoredUser (boot (secureStore (final r))) in
  outcome r = inl (mkResult true None) /\
  user (final r) = User_value X /\
  apiUserId (final r) = VStr (js "1") /\
  secureStore (final r) = <[USER_KEY := JSON_stringify X]> (secureStore (boot ∅)) /\
  user (final r') = User_value X /\
  apiUserId (final r') = VStr (js "1").
Proof.
  apply (signUp_round_trip (all_well alice) (all_well alice) (boot ∅) new_account
                           (server_returns alice) 49 []).
  - reflexivity.
  - reflexivity.
  - eexists. reflexivity.
  - eexists. reflexivity.
Defined.

Lemma signInWithGoogle_round_trip_witness :
  let r := run (all_well alice) (signInWithGoogle android) (boot ∅) in
  let r' := run (all_well alice) loadStoredUser (boot (secureStore (final r))) in
  outcome r = inl (mkResult true None) /\
  requests (final r)
  = requests (boot ∅) ++ [("/api/auth/google", GoogleBody (js "google-id-token"))] /\
  user (final r) = User_value alice /\
  apiUserId (final r) = VStr (User.id alice) /\
  user (final r') = User_value alice /\
  apiUserId (final r') = VStr (User.id alice).
Proof.
  apply (signInWithGoogle_round_trip android (all_well alice) (all_well alice) (boot ∅)
           google_account 103 (js "oogle-id-token") (server_returns alice) alice).
  - eexists. reflexivity.
  - reflexivity.
  - reflexivity.
  - reflexivity.
  - reflexivity.
  - eexists. reflexivity.
  - eexists. reflexivity.
Defined.

Lemma signIn_rejection_witness :
  let wrong := server_error (js "Wrong password") in
  let silent := mkError "AxiosError" None None in
  let result env := outcome (run env (signIn (js "a@x.com") (js "pw")) (signed_in bob)) in
  result server_declines = inl (mkResult false (Some (js "Invalid credentials"))) /\
  result (server_rejects wrong) = inl (mkResult false (Some (js "Wrong password"))) /\
  result (server_rejects silent) = inl (mkResult false (Some (js "Sign in failed"))) /\
  retained (signed_in bob)
           (final (run (server_rejects wrong) (signIn (js "a@x.com") (js "pw"))
                       (signed_in bob))).
Proof.
  intros wrong silent result. split; [| split; [| split]].
  - pose proof (signIn_rejection server_declines (signed_in bob) (js "a@x.com") (js "pw"))
      as H.
    cbv zeta in H. destruct H as (Hdecl & _).
    destruct (Hdecl empty_response eq_refl eq_refl) as (Hout & _). exact Hout.
  - pose proof (signIn_rejection (server_rejects wrong) (signed_in bob) (js "a@x.com")
                  (js "pw")) as H.
    cbv zeta in H. destruct H as (_ & Hrej).
    destruct (Hrej wrong eq_refl) as (_ & _ & _ & Hmsg & _).
    apply (Hmsg 87 (js "rong password")). reflexivity.
  - pose proof (signIn_rejection (server_rejects silent) (signed_in bob) (js "a@x.com")
                  (js "pw")) as H.
    cbv zeta in H. destruct H as (_ & Hrej).
    destruct (Hrej silent eq_refl) as (_ & _ & _ & _ & Hdefault).
    apply Hdefault. left. reflexivity.
  - pose proof (signIn_rejection (server_rejects wrong) (signed_in bob) (js "a@x.com")
                  (js "pw")) as H.
    cbv zeta in H. destruct H as (_ & Hrej).
    destruct (Hrej wrong eq_refl) as (Hkept & _). exact Hkept.
Defined.

Lemma signUp_rejection_witness :
  let taken := server_error (js "Email already registered") in
  let silent := mkError "AxiosError" None (Some []) in
  let result env := outcome (run env (signUp new_account) (boot ∅)) in
  result server_declines = inl (mkResult false (Some (js "Registration failed"))) /\
  result (server_rejects taken) = inl (mkResult false (Some (js "Email already registered"))) /\
  result (server_rejects silent) = inl (mkResult false (Some (js "Sign up failed"))) /\
  retained (boot ∅) (final (run (server_rejects taken) (signUp new_account) (boot ∅))).
Proof.
  intros taken silent result. split; [| split; [| split]].
  - pose proof (signUp_rejection server_declines (boot ∅) new_account) as H.
    cbv zeta in H. destruct H as (Hdecl & _).
    destruct (Hdecl empty_response eq_refl (or_introl eq_refl)) as (Hout & _). exact Hout.
  - pose proof (signUp_rejection (server_rejects taken) (boot ∅) new_account) as H.
    cbv zeta in H. destruct H as (_ & Hrej).
    destruct (Hrej taken eq_refl) as (_ & _ & _ & Hmsg & _).
    apply (Hmsg 69 (js "mail already registered")). reflexivity.
  - pose proof (signUp_rejection (server_rejects silent) (boot ∅) new_account) as H.
    cbv zeta in H. destruct H as (_ & Hrej).
    destruct (Hrej silent eq_refl) as (_ & _ & _ & _ & Hdefault).
    apply Hdefault. right. reflexivity.
  - pose proof (signUp_rejection (server_rejects taken) (boot ∅) new_account) as H.
    cbv zeta in H. destruct H as (_ & Hrej).
    destruct (Hrej taken eq_refl) as (Hkept & _). exact Hkept.
Defined.

Lemma google_without_token_sends_nothing_witness :
  let run_with env := run env (signInWithGoogle android) (signed_in alice) in
  requests (final (run_with (services_fail play_services_error))) = [] /\
  awaited (services_fail play_services_error) (signInWithGoogle android) (signed_in alice)
  = ["GoogleSignin.hasPlayServices"] /\
  requests (final (run_with (provider_fails cancelled_error))) = [] /\
  outcome (run_with (provider_gives (mkUserInfo None)))
  = inl (mkResult false (Some (js "Failed to get ID token"))) /\
  final (run_with (provider_gives (mkUserInfo (Some (mkGoogleData (Some []))))))
  = signed_in alice.
Proof.
  intros run_with. split; [| split; [| split; [| split]]].
  - pose proof (google_without_token_sends_nothing android
                  (services_fail play_services_error) (signed_in alice)) as H.
    cbv zeta in H. destruct H as (Hplay & _).
    destruct (Hplay play_services_error eq_refl) as (_ & Hreq & _). exact Hreq.
  - pose proof (google_without_token_sends_nothing android
                  (services_fail play_services_error) (signed_in alice)) as H.
    cbv zeta in H. destruct H as (Hplay & _).
    destruct (Hplay play_services_error eq_refl) as (Hcalls & _). exact Hcalls.
  - pose proof (google_without_token_sends_nothing android
                  (provider_fails cancelled_error) (signed_in alice)) as H.
    cbv zeta in H. destruct H as (_ & Hsign & _).
    destruct (Hsign cancelled_error (ex_intro _ tt eq_refl) eq_refl) as (_ & Hreq & _).
    exact Hreq.
  - pose proof (google_without_token_sends_nothing android
                  (provider_gives (mkUserInfo None)) (signed_in alice)) as H.
    cbv zeta in H. destruct H as (_ & _ & Hnone).
    destruct (Hnone (mkUserInfo None) (ex_intro _ tt eq_refl) eq_refl (or_introl eq_refl))
      as (_ & Hout & _).
    exact Hout.
  - pose proof (google_without_token_sends_nothing android
                  (provider_gives (mkUserInfo (Some (mkGoogleData (Some [])))))
                  (signed_in alice)) as H.
    cbv zeta in H. destruct H as (_ & _ & Hnone).
    destruct (Hnone (mkUserInfo (Some (mkGoogleData (Some []))))
                    (ex_intro _ tt eq_refl) eq_refl (or_intror eq_refl))
      as (_ & _ & Hfinal).
    exact Hfinal.
Defined.

Lemma signed_in_consistent (u : User) : consistent (signed_in u).
Proof.
  right. exists u. split; [reflexivity |]. split; [| reflexivity].
  apply lookup_singleton_eq.
Defined.

Lemma operations_keep_the_parties_agreed_witness :
  consistent (signed_in alice) /\
  consistent (final (run (all_well bob) (signIn (js "b@x.com") (js "pw")) (signed_in alice))) /\
  consistent (final (run (store_fails bob) (signInWithGoogle android) (signed_in alice))) /\
  consistent (final (run (store_fails bob) signOut (signed_in alice))).
Proof.
  split; [apply signed_in_consistent |].
  split; [| split].
  - pose proof (operations_keep_the_parties_agreed android (all_well bob) (signed_in alice)
                  (signed_in_consistent alice)) as (Hin & _).
    apply Hin.
  - pose proof (operations_keep_the_parties_agreed android (store_fails bob) (signed_in alice)
                  (signed_in_consistent alice)) as (_ & Hgoogle & _).
    exact Hgoogle.
  - pose proof (operations_keep_the_parties_agreed android (store_fails bob) (signed_in alice)
                  (signed_in_consistent alice)) as (_ & _ & _ & _ & Hout).
    exact Hout.
Defined.

Lemma restart_restores_the_session_witness :
  let r := run (all_well bob) loadStoredUser (boot (secureStore (signed_in alice))) in
  user (final r) = User_value alice /\
  apiUserId (final r) = VStr (js "1") /\
  secureStore (final r) = secureStore (signed_in alice) /\
  isLoading (final r) = false /\
  consistent (final r).
Proof.
  apply (restart_restores_the_session (all_well bob) (signed_in alice)).
  - apply signed_in_consistent.
  - eexists. reflexivity.
Defined.

Lemma effect_owed_on_success_only_witness :
  effectQueue (final (run (all_well alice) (signIn (js "a@x.com") (js "pw")) (boot ∅)))
  = [User_value alice] /\
  effectQueue (final (run server_declines (signIn (js "a@x.com") (js "pw")) (boot ∅))) = [] /\
  effectQueue (final (run (store_fails alice) (signUp new_account) (boot ∅))) = [].
Proof.
  split; [| split].
  - pose proof (effect_owed_on_success_only android (all_well alice) (boot ∅)) as H.
    cbv zeta in H. destruct H as (Hin & _).
    exact (Hin (js "a@x.com") (js "pw") (mkResult true None) eq_refl).
  - pose proof (effect_owed_on_success_only android server_declines (boot ∅)) as H.
    cbv zeta in H. destruct H as (Hin & _).
    exact (Hin (js "a@x.com") (js "pw")
               (mkResult false (Some (js "Invalid credentials"))) eq_refl).
  - pose proof (effect_owed_on_success_only android (store_fails alice) (boot ∅)) as H.
    cbv zeta in H. destruct H as (_ & _ & Hup & _).
    exact (Hup new_account (mkResult false (Some (js "Sign up failed"))) eq_refl).
Defined.

Lemma layout_follows_the_session_witness :
  let shown (w : World) := TabLayout (user w) (isLoading w) in
  shown (final (run (all_well alice) (signIn (js "a@x.com") (js "pw")) (signed_in bob)))
  = TheTabs /\
  shown (final (run server_declines (signIn (js "a@x.com") (js "pw")) (signed_in bob)))
  = shown (signed_in bob) /\
  shown (final (run (all_well alice) signOut (signed_in bob))) = RedirectToSignIn /\
  shown (final (run (store_fails alice) signOut (signed_in bob))) = TheTabs.
Proof.
  intros shown. split; [| split; [| split]].
  - pose proof (layout_follows_the_session android (all_well alice) (signed_in bob) ∅) as H.
    cbv zeta in H. destruct H as (_ & H). destruct (H eq_refl) as (Hin & _).
    exact (Hin (js "a@x.com") (js "pw") (mkResult true None) eq_refl).
  - pose proof (layout_follows_the_session android server_declines (signed_in bob) ∅) as H.
    cbv zeta in H. destruct H as (_ & H). destruct (H eq_refl) as (Hin & _).
    exact (Hin (js "a@x.com") (js "pw")
               (mkResult false (Some (js "Invalid credentials"))) eq_refl).
  - pose proof (layout_follows_the_session android (all_well alice) (signed_in bob) ∅) as H.
    cbv zeta in H. destruct H as (_ & H). destruct (H eq_refl) as (_ & _ & _ & _ & Hout & _).
    apply Hout. eexists. reflexivity.
  - pose proof (layout_follows_the_session android (store_fails alice) (signed_in bob) ∅) as H.
    cbv zeta in H. destruct H as (_ & H). destruct (H eq_refl) as (_ & _ & _ & _ & _ & Hkeep).
    apply (Hkeep storage_error). reflexivity.
Defined.

Lemma registration_calls_witness :
  let token := js "ExponentPushToken[x]" in
  let prompted := notifying (inl tt) (inl undetermined) (inl granted) (inl token) (inl tt) in
  let refused := notifying (inl tt) (inl undetermined) (inl denied) (inl token) (inl tt) in
  awaited prompted (registerForPushNotificationsAsync android) (boot ∅)
  = ["Notifications.setNotificationChannelAsync"; "Notifications.getPermissionsAsync";
     "Notifications.requestPermissionsAsync"; "Notifications.getExpoPushTokenAsync"] /\
  outcome (run prompted (registerForPushNotificationsAsync android) (boot ∅))
  = inl (Some token) /\
  awaited refused (registerForPushNotificationsAsync iphone) (boot ∅)
  = ["Notifications.getPermissionsAsync"; "Notifications.requestPermissionsAsync"] /\
  awaited prompted (registerForPushNotificationsAsync emulator) (boot ∅)
  = ["Notifications.setNotificationChannelAsync"] /\
  outcome (run prompted (registerForPushNotificationsAsync unconfigured) (boot ∅))
  = inl None.
Proof.
  intros token prompted refused. split; [| split; [| split; [| split]]].
  - pose proof (registration_calls android prompted (boot ∅) undetermined granted) as H.
    cbv zeta in H.
    destruct (H (ex_intro _ tt eq_refl) eq_refl eq_refl) as (_ & _ & _ & Hall).
    destruct (Hall 112 (js "roject-1") eq_refl eq_refl eq_refl) as (Hcalls & _).
    exact Hcalls.
  - pose proof (registration_calls android prompted (boot ∅) undetermined granted) as H.
    cbv zeta in H.
    destruct (H (ex_intro _ tt eq_refl) eq_refl eq_refl) as (_ & _ & _ & Hall).
    destruct (Hall 112 (js "roject-1") eq_refl eq_refl eq_refl) as (_ & _ & Hout).
    exact Hout.
  - pose proof (registration_calls iphone refused (boot ∅) undetermined denied) as H.
    cbv zeta in H.
    destruct (H (ex_intro _ tt eq_refl) eq_refl eq_refl) as (_ & Hdenied & _).
    destruct (Hdenied eq_refl eq_refl) as (Hcalls & _). exact Hcalls.
  - pose proof (registration_calls emulator prompted (boot ∅) undetermined granted) as H.
    cbv zeta in H.
    destruct (H (ex_intro _ tt eq_refl) eq_refl eq_refl) as (Hnodevice & _).
    destruct (Hnodevice eq_refl) as (Hcalls & _). exact Hcalls.
  - pose proof (registration_calls unconfigured prompted (boot ∅) undetermined granted) as H.
    cbv zeta in H.
    destruct (H (ex_intro _ tt eq_refl) eq_refl eq_refl) as (_ & _ & Hnoproject & _).
    destruct (Hnoproject eq_refl eq_refl (or_intror eq_refl)) as (_ & Hout). exact Hout.
Defined.

Lemma registration_setup_failures_escape_witness :
  let broken := mkError "Error" (Some (js "ERR_NOTIFICATIONS")) None in
  let token := js "ExponentPushToken[x]" in
  outcome (run (notifying (inr broken) (inl granted) (inl granted) (inl token) (inl tt))
               (registerForPushNotificationsAsync android) (boot ∅)) = inr broken /\
  outcome (run (notifying (inl tt) (inr broken) (inl granted) (inl token) (inl tt))
               (registerForPushNotificationsAsync iphone) (boot ∅)) = inr broken /\
  outcome (run (notifying (inl tt) (inl denied) (inr broken) (inl token) (inl tt))
               (registerForPushNotificationsAsync iphone) (boot ∅)) = inr broken.
Proof.
  intros broken token. split; [| split].
  - pose proof (registration_setup_failures_escape android
                  (notifying (inr broken) (inl granted) (inl granted) (inl token) (inl tt))
                  (boot ∅) broken) as H.
    cbv zeta in H. destruct H as (Hchannel & _).
    destruct (Hchannel eq_refl eq_refl) as (Hout & _). exact Hout.
  - pose proof (registration_setup_failures_escape iphone
                  (notifying (inl tt) (inr broken) (inl granted) (inl token) (inl tt))
                  (boot ∅) broken) as H.
    cbv zeta in H. destruct H as (_ & Hread & _).
    destruct (Hread (fun _ => ex_intro _ tt eq_refl) eq_refl eq_refl) as (Hout & _).
    exact Hout.
  - pose proof (registration_setup_failures_escape iphone
                  (notifying (inl tt) (inl denied) (inr broken) (inl token) (inl tt))
                  (boot ∅) broken) as H.
    cbv zeta in H. destruct H as (_ & _ & Hprompt).
    destruct (Hprompt denied (fun _ => ex_intro _ tt eq_refl) eq_refl eq_refl eq_refl eq_refl)
      as (Hout & _).
    exact Hout.
Defined.

Lemma effect_outcomes_witness :
  let broken := mkError "Error" (Some (js "ERR_NOTIFICATIONS")) None in
  let offline := mkError "AxiosError" (Some (js "ERR_NETWORK")) None in
  let token := js "ExponentPushToken[x]" in
  let upload_fails := notifying (inl tt) (inl granted) (inl granted) (inl token) (inr offline) in
  let setup_fails := notifying (inr broken) (inl granted) (inl granted) (inl token) (inl tt) in
  final (run upload_fails (pushTokenEffect android VNull) (signed_in alice)) = signed_in alice /\
  outcome (run upload_fails (pushTokenEffect android (User_value alice)) (signed_in alice))
  = inl tt /\
  console (final (run upload_fails (pushTokenEffect iphone (User_value alice)) (boot ∅)))
  = [("Expo Push Token:", None); ("Failed to update push token on server:", Some offline)] /\
  outcome (run setup_fails (pushTokenEffect android (User_value alice)) (signed_in alice))
  = inr broken /\
  outcome (run upload_fails (pushTokenEffect emulator (User_value alice)) (signed_in alice))
  = inl tt.
Proof.
  intros broken offline token upload_fails setup_fails.
  split; [| split; [| split; [| split]]].
  - pose proof (effect_outcomes android upload_fails (signed_in alice) VNull) as H.
    cbv zeta in H. destruct H as (Hnone & _).
    destruct (Hnone eq_refl) as (_ & Hfinal & _). exact Hfinal.
  - pose proof (effect_outcomes android upload_fails (signed_in alice) (User_value alice)) as H.
    cbv zeta in H. destruct H as (_ & Huser).
    destruct (Huser eq_refl) as (_ & Hupload & _).
    destruct (Hupload 69 (js "xponentPushToken[x]") offline eq_refl eq_refl) as (Hout & _).
    exact Hout.
  - pose proof (effect_outcomes iphone upload_fails (boot ∅) (User_value alice)) as H.
    cbv zeta in H. destruct H as (_ & Huser).
    destruct (Huser eq_refl) as (_ & Hupload & _).
    destruct (Hupload 69 (js "xponentPushToken[x]") offline eq_refl eq_refl)
      as (_ & _ & Hlog).
    exact Hlog.
  - pose proof (effect_outcomes android setup_fails (signed_in alice) (User_value alice)) as H.
    cbv zeta in H. destruct H as (_ & Huser).
    destruct (Huser eq_refl) as (_ & _ & Hescape).
    destruct (Hescape broken eq_refl) as (Hout & _). exact Hout.
  - pose proof (effect_outcomes emulator upload_fails (signed_in alice) (User_value alice))
      as H.
    cbv zeta in H. destruct H as (_ & Huser).
    destruct (Huser eq_refl) as (Hnotoken & _).
    destruct (Hnotoken (or_introl eq_refl)) as (Hout & _). exact Hout.
Defined.

Lemma handleResetPassword_outcomes_witness :
  let unknown := server_error (js "No account with this email") in
  let sent := run (all_well alice) (handleResetPassword (js "x@y.com")) (boot ∅) in
  let failed := run (server_rejects unknown) (handleResetPassword (js "x@y.com")) (boot ∅) in
  (screen_success (screen (final sent)) = true /\ screen_error (screen (final sent)) = []) /\
  (screen_success (screen (final failed)) = false /\
   screen_error (screen (final failed)) = js "No account with this email").
Proof.
  intros unknown sent failed. split.
  - pose proof (handleResetPassword_outcomes (all_well alice) (boot ∅) 120 (js "@y.com")) as H.
    cbv zeta in H. destruct H as (_ & _ & _ & Hok & _).
    apply Hok. eexists. reflexivity.
  - pose proof (handleResetPassword_outcomes (server_rejects unknown) (boot ∅) 120
                  (js "@y.com")) as H.
    cbv zeta in H. destruct H as (_ & _ & _ & _ & Hrej).
    apply (Hrej unknown). reflexivity.
Defined.

Lemma sign_in_in_flight_is_not_cancelled_witness :
  let env := all_well alice in
  let sign_out := [Invoke (void_task signOut); Settle 1 env; Resume 1] in
  let s' := steps (round 0 env sign_out [] ++ round 0 env [] [])
                  (invoke (auth_task (signIn (js "a@x.com") (js "pw")))
                          (mkSys (signed_in bob) [])) in
  tasks s' !! 0%nat = Some (Finished (inl (OAuth (mkResult true None)))) /\
  user (world s') = User_value alice /\
  apiUserId (world s') = VStr (User.id alice) /\
  exists owed, effectQueue (world s') = owed ++ [User_value alice].
Proof.
  intros env sign_out.
  assert (Hout : others 0 sign_out) by (repeat constructor).
  assert (Hnil : others 0 []) by constructor.
  refine (sign_in_in_flight_is_not_cancelled (mkSys (signed_in bob) []) env
            (js "a@x.com") (js "pw") (server_returns alice) alice sign_out [] [] []
            Hout Hnil Hnil Hnil eq_refl eq_refl _).
  eexists. reflexivity.
Defined.

Lemma toggle_keeps_ids_unique_witness :
  List.NoDup (map Member._id (GroupDetailsScreen.toggleInvite [ann; ben] ann)) /\
  GroupDetailsScreen.toggleInvite (GroupDetailsScreen.toggleInvite [ben] ann) ann = [ben].
Proof.
  split.
  - pose proof (ScreenFacts.toggle_keeps_ids_unique [ann; ben] ann) as (Hunique & _).
    apply Hunique. repeat constructor; cbn; intuition discriminate.
  - pose proof (ScreenFacts.toggle_keeps_ids_unique [ben] ann) as (_ & Htwice).
    apply Htwice. reflexivity.
Defined.

Lemma create_group_suggestions_witness :
  let offered sel q := CreateGroupScreen.filteredSuggestions lower_ascii [ann; ben] sel q in
  In ben (offered [ann] []) /\
  ~ In ben (offered (CreateGroupScreen.toggleMember [ann] ben) []) /\
  (In ben (offered [ann] (js "BEN")) ->
   In ben [ann; ben] /\ has_id (Member._id ben) [ann] = false).
Proof.
  intros offered.
  pose proof (ScreenFacts.create_group_suggestions lower_ascii [ann; ben] [ann] [] ben) as H.
  cbv zeta in H. destruct H as (_ & Hempty & Hpicked & _).
  split; [| split].
  - apply Hempty; [reflexivity | right; left; reflexivity | reflexivity].
  - apply Hpicked. reflexivity.
  - pose proof (ScreenFacts.create_group_suggestions lower_ascii [ann; ben] [ann] (js "BEN")
                  ben) as H.
    cbv zeta in H. destruct H as (Hsound & _). exact Hsound.
Defined.

Lemma group_invite_suggestions_witness :
  let group := GroupDetailsScreen.mkGroup [ann] in
  let offered q :=
    GroupDetailsScreen.filteredSuggestions lower_ascii [ann; ben] (Some group) q in
  In ann (offered (js "An")) /\
  (In ann (offered []) -> False) /\
  (In ben (offered []) -> In ben [ann; ben] /\ Member.email ben <> []).
Proof.
  intros group offered. split; [| split].
  - pose proof (ScreenFacts.group_invite_suggestions lower_ascii [ann; ben] group (js "An")
                  ann) as H.
    cbv zeta in H. destruct H as (_ & _ & _ & Hsearch).
    destruct Hsearch as (_ & Hoffered); [vm_compute; discriminate |].
    apply Hoffered; [left; reflexivity | vm_compute; discriminate | vm_compute; reflexivity].
  - intros Hin.
    pose proof (ScreenFacts.group_invite_suggestions lower_ascii [ann; ben] group [] ann) as H.
    cbv zeta in H. destruct H as (_ & _ & Hempty & _).
    specialize (Hempty Hin). vm_compute in Hempty. discriminate.
  - pose proof (ScreenFacts.group_invite_suggestions lower_ascii [ann; ben] group [] ben) as H.
    cbv zeta in H. destruct H as (_ & Hsound & _). exact Hsound.
Defined.

Lemma enriched_balances_rows_witness :
  let group := GroupDetailsScreen.mkGroup [ann] in
  let balances := [GroupDetailsScreen.mkBalance (js "m1") 10%Z;
                   GroupDetailsScreen.mkBalance (js "gone") (-10)%Z] in
  In (GroupDetailsScreen.mkEnriched (js "gone") (-10)%Z (js "Unknown") (js "gone"))
     (GroupDetailsScreen.enrichedBalances balances group).
Proof.
  intros group balances.
  pose proof (ScreenFacts.enriched_balances_rows balances group) as H.
  cbv zeta in H. destruct H as (_ & _ & _ & _ & Hunknown).
  apply (Hunknown (GroupDetailsScreen.mkBalance (js "gone") (-10)%Z)).
  - right. left. reflexivity.
  - reflexivity.
Defined.

(** * More on the stored record *)

Lemma member_fails_on_nullish (v : value) (e : JsError) :
  member v (js "id") = inr e -> v = VNull \/ v = VUndefined.
Proof. destruct v; cbn [member]; intros H; try discriminate; auto. Qed.

(** X22. Bootstrap trusts whatever parses. For a stored text that
    [JSON.parse] accepts, the user becomes the parsed value as it is, and
    the bound id its [id] property, [undefined] when it has none; nothing is
    checked and nothing is logged. When the parsed value has no properties
    (the text [null]) the read of [id] throws: the user has been set to
    that falsy value, no id is bound and the [TypeError] is logged. *)
Theorem bootstrap_trusts_the_record (env : Env) (m : gmap string jsstring)
    (c : N) (text : jsstring) (v : value) :
  resolves env (SecureStore_getItemAsync USER_KEY) ->
  m !! USER_KEY = Some (c :: text) ->
  JSON.parse (c :: text) = inl v ->
  let r := run env loadStoredUser (boot m) in
  user (final r) = v /\
  isLoading (final r) = false /\
  (forall uid, member v (js "id") = inl uid ->
               apiUserId (final r) = uid /\ console (final r) = []) /\
  (forall e, member v (js "id") = inr e ->
             truthy v = false /\ apiUserId (final r) = VNull /\
             console (final r) = [("Error loading user:", Some e)]).
Proof.
  intros [o Hget] Hm Hparse. unfold loadStoredUser. exec.
  rewrite Hget. exec. rewrite Hm. exec. rewrite Hparse. exec.
  destruct (member v (js "id")) as [uid | e] eqn:Hid; exec.
  - repeat split; intros; simplify_eq; reflexivity.
  - destruct (member_fails_on_nullish v e Hid) as [-> | ->];
      repeat split; intros; simplify_eq; reflexivity.
Qed.

Lemma User_value_inj (u u' : User) : User_value u = User_value u' -> u = u'.
Proof.
  destruct u, u'. unfold User_value. cbn [User.id User.name User.email].
  intros H. inversion H. reflexivity.
Qed.

(** X23. The stored record and the session determine each other:
    [JSON.parse] of the serialized session [{id, name, email}] is that
    session, whatever characters its three strings hold (quotes,
    backslashes, control characters, lone surrogates), so two sessions with
    the same record are the same session. *)
Theorem session_record_round_trip (u : User) :
  JSON.parse (JSON_stringify u) = inl (User_value u) /\
  (forall u', JSON_stringify u = JSON_stringify u' -> u = u').
Proof.
  split; [apply JSONFacts.parse_stringify |].
  intros u' Heq. apply User_value_inj.
  pose proof (JSONFacts.parse_stringify u) as H.
  rewrite Heq, JSONFacts.parse_stringify in H. congruence.
Qed.

Ltac other_key :=
  rewrite ?lookup_insert_ne, ?lookup_delete_ne by congruence; reflexivity.

(** X24. The controller keeps to its own key: whatever else the secure
    store holds is left as it is by bootstrap and by every public
    operation, however their calls settle. *)
Theorem only_the_session_key_is_touched (rt : Runtime) (env : Env) (w : World)
    (key : string) :
  key <> USER_KEY ->
  let kept (A : Type) (r : Run A) := secureStore (final r) !! key = secureStore w !! key in
  (forall email password, kept _ (run env (signIn email password) w)) /\
  kept _ (run env (signInWithGoogle rt) w) /\
  (forall data, kept _ (run env (signUp data) w)) /\
  (forall email, kept _ (run env (forgotPassword email) w)) /\
  kept _ (run env signOut w) /\
  secureStore (final (run env loadStoredUser (boot (secureStore w)))) !! key
  = secureStore w !! key.
Proof.
  intros Hkey. cbn zeta. repeat split.
  - intros email password. unfold signIn. explore; simplify_eq; exec; other_key.
  - unfold signInWithGoogle, code_is. explore; simplify_eq; exec; other_key.
  - intros data. unfold signUp. explore; simplify_eq; exec; other_key.
  - intros email. unfold forgotPassword. explore; simplify_eq; exec; other_key.
  - unfold signOut. explore; simplify_eq; exec; other_key.
  - rewrite loadStoredUser_store. reflexivity.
Qed.

Lemma bootstrap_trusts_the_record_witness :
  let nameless : gmap string jsstring :=
    {[USER_KEY := js "{" ++ quoted "name" ++ js ":" ++ quoted "A" ++ js "}"]} in
  let r := run (all_well alice) loadStoredUser (boot nameless) in
  let r0 := run (all_well alice) loadStoredUser (boot {[USER_KEY := js "null"]}) in
  (user (final r) = VObj [(js "name", VStr (js "A"))] /\ apiUserId (final r) = VUndefined) /\
  (user (final r0) = VNull /\ apiUserId (final r0) = VNull /\
   console (final r0) = [("Error loading user:", Some TypeError)]).
Proof.
  intros nameless r r0. split.
  - pose proof (bootstrap_trusts_the_record (all_well alice) nameless 123
                  (quoted "name" ++ js ":" ++ quoted "A" ++ js "}")
                  (VObj [(js "name", VStr (js "A"))])) as H.
    cbv zeta in H.
    destruct H as (Huser & _ & Hbound & _);
      [eexists; reflexivity | vm_compute; reflexivity | vm_compute; reflexivity |].
    split; [exact Huser |]. apply (Hbound VUndefined). vm_compute. reflexivity.
  - pose proof (bootstrap_trusts_the_record (all_well alice) {[USER_KEY := js "null"]} 110
                  (js "ull") VNull) as H.
    cbv zeta in H.
    destruct H as (Huser & _ & _ & Hnull);
      [eexists; reflexivity | vm_compute; reflexivity | vm_compute; reflexivity |].
    split; [exact Huser |].
    destruct (Hnull TypeError eq_refl) as (_ & Hbound & Hlog). split; assumption.
Defined.

Lemma session_record_round_trip_witness :
  JSON_stringify alice = JSON_stringify (User.mk (js "1") (js "A") (js "a@x.com")) /\
  alice = User.mk (js "1") (js "A") (js "a@x.com").
Proof.
  split; [reflexivity |].
  pose proof (session_record_round_trip alice) as (_ & Hinj).
  apply Hinj. reflexivity.
Defined.

Lemma only_the_session_key_is_touched_witness :
  let w := with_store (<["theme" := js "dark"]> (secureStore (signed_in alice)))
                      (signed_in alice) in
  secureStore (final (run (all_well bob) (signIn (js "b@x.com") (js "pw")) w)) !! "theme"
  = Some (js "dark") /\
  secureStore (final (run (all_well bob) signOut w)) !! "theme" = Some (js "dark").
Proof.
  intros w.
  assert (Hkey : "theme" <> USER_KEY) by (vm_compute; discriminate).
  pose proof (only_the_session_key_is_touched android (all_well bob) w "theme" Hkey) as H.
  cbv zeta in H. destruct H as (Hin & _ & _ & _ & Hout & _).
  split.
  - rewrite (Hin (js "b@x.com") (js "pw")). vm_compute. reflexivity.
  - rewrite Hout. vm_compute. reflexivity.
Defined.
